(** * misteragent: the ReAct agent of [src/misteragent/react.py]

    A shallow embedding of [ReActAgent] (its history, its variable scope, the
    response splitter [_reason], the code executor [_act] and the loop [run])
    and the properties its specification states about them.

    Layout: Python strings; the Python runtime the agent relies on
    ([ast.parse], [exec], [str], [sys.stdout], [StringIO]) as an interface; the
    agent itself in a state-and-exception monad; a small interpreter for a
    fragment of Python that instantiates the interface; then the theorems. *)

From Stdlib Require Import ZArith NArith Ascii String List Lia.
From Stdlib Require Import DecimalString.
From stdpp Require Import base option list gmap.

(** ** Python strings *)

(** A Python [str] is a sequence of Unicode code points. *)
Definition char : Type := N.
Abbreviation str := (list N).

(** The [str] a literal of the source denotes (the literals of the source are
    ASCII, so a character is its own code point). *)
Definition py (s : string) : str := map N_of_ascii (list_ascii_of_string s).
Arguments py s%_string : simpl never.

(** [c.isspace()] for one code point: CPython's [_PyUnicode_IsWhitespace]
    (general category Zs, or bidirectional class WS, B or S). *)
Definition isspace (c : char) : bool :=
  ((0x09 <=? c) && (c <=? 0x0D) || (0x1C <=? c) && (c <=? 0x20)
   || (c =? 0x85) || (c =? 0xA0) || (c =? 0x1680)
   || (0x2000 <=? c) && (c <=? 0x200A)
   || (c =? 0x2028) || (c =? 0x2029) || (c =? 0x202F) || (c =? 0x205F)
   || (c =? 0x3000))%N.

(** [s.lstrip()], [s.rstrip()] and [s.strip()] with no argument. *)
Fixpoint str_lstrip (s : str) : str :=
  match s with
  | c :: s' => if isspace c then str_lstrip s' else s
  | [] => []
  end.

Definition str_rstrip (s : str) : str := reverse (str_lstrip (reverse s)).

Definition str_strip (s : str) : str := str_rstrip (str_lstrip s).

(** [s.startswith(p)]. *)
Fixpoint str_startswith (s p : str) : bool :=
  match p, s with
  | [], _ => true
  | _ :: _, [] => false
  | a :: p', b :: s' => (a =? b)%N && str_startswith s' p'
  end.

(** [s.find(sub)]: the lowest index at which [sub] starts in [s]; [None] is
    Python's [-1]. *)
Fixpoint str_find (s sub : str) : option nat :=
  if str_startswith s sub then Some 0%nat
  else match s with
       | [] => None
       | _ :: s' => S <$> str_find s' sub
       end.

(** [sub in s]. *)
Definition str_in (sub s : str) : bool := bool_decide (is_Some (str_find s sub)).

(** [s.split(sep)] for a non-empty [sep]: cut at every occurrence found
    scanning left to right, occurrences not overlapping. Each cut consumes at
    least one character, so [length s] rounds are enough ([str_split_unfold]
    below). *)
Fixpoint str_split_rounds (rounds : nat) (s sep : str) : list str :=
  match rounds with
  | O => [s]
  | S rounds' =>
      match str_find s sep with
      | None => [s]
      | Some i => take i s :: str_split_rounds rounds' (drop (i + length sep) s) sep
      end
  end.

Definition str_split (s sep : str) : list str := str_split_rounds (length s) s sep.

(** [sep.join(parts)]. *)
Fixpoint str_join (sep : str) (parts : list str) : str :=
  match parts with
  | [] => []
  | [p] => p
  | p :: rest => p ++ sep ++ str_join sep rest
  end.

(** The new-line character, as a string. *)
Definition NL : str := [10%N].

(** ** The Python runtime the agent runs on *)

(** A text stream: the text it holds and whether it has been closed. *)
Record buffer : Type := { contents : str; closed : bool }.

(** The stream [StringIO()] makes. *)
Definition empty_buffer : buffer := {| contents := []; closed := false |}.

(** The object [sys.stdout] is bound to: the stream the process started with,
    a [StringIO] buffer the agent made (by its allocation index), or an
    object of the executed code's own. *)
Inductive stream : Type := Terminal | StringIO (id : nat) | Foreign.

(** What one [exec(code, globals, locals)] that comes to an end does. To the
    streams: what becomes of the object [sys.stdout] is bound to when the code
    starts (the code may write to it, seek, truncate, close it), what becomes
    of the process's original output (which the code reaches through
    [sys.__stdout__] or the file descriptor), and the object the code leaves
    [sys.stdout] bound to, if it rebinds it. Then the [locals] mapping as it
    leaves it (it updates the mapping in place, also when it ends by raising),
    and the exception it raises, if any. A fragment that loops for ever or
    ends the process has no such record: the agent never gets control back
    from it. *)
Record exec_effect (V E : Type) : Type := ExecEffect {
  on_stdout : buffer -> buffer;
  on_original : buffer -> buffer;
  rebinds_stdout : option stream;
  locals_after : gmap str V;
  raised : option E
}.
Arguments ExecEffect {V E}.
Arguments on_stdout {V E}.
Arguments on_original {V E}.
Arguments rebinds_stdout {V E}.
Arguments locals_after {V E}.
Arguments raised {V E}.

(** The interpreter: its values and exception objects, the class test of
    [except Exception], [str(e)] (which runs [e.__str__] and so may itself
    raise), the [IndexError] of an out-of-range subscript, the [ValueError]
    that reading a closed [StringIO] raises (a builtin exception: an instance
    of [Exception] whose [str()] is its message), [ast.parse] ([None]: the
    source parses; [Some e]: it raises [e]) and [exec]. Both are taken as
    functions of their arguments; the statements below are about one call at
    a time and hold whatever these functions are. *)
Record Python : Type := {
  value : Type;
  exn : Type;
  isinstance_Exception : exn -> bool;
  exn_str : exn -> exn + str;
  index_error : exn;
  closed_file_error : exn;
  closed_file_error_caught : isinstance_Exception closed_file_error = true;
  closed_file_error_str :
    exn_str closed_file_error = inr (py "I/O operation on closed file");
  ast_parse : str -> option exn;
  exec : str -> gmap str value -> gmap str value -> exec_effect value exn
}.

(** The language-model client: [get_completion(context)] returns a completion
    or raises, and may change the client. *)
Record LLMClient (E : Type) : Type := {
  client : Type;
  get_completion : client -> str -> (E + str) * client
}.
Arguments client {E}.
Arguments get_completion {E}.

(** ** The agent's data *)

Inductive StepType : Type := THOUGHT | ACTION | OBSERVATION | FINAL_ANSWER.

(** [StepType.X.value] *)
Definition StepType_value (t : StepType) : str :=
  match t with
  | THOUGHT => py "THOUGHT"
  | ACTION => py "ACTION"
  | OBSERVATION => py "OBSERVATION"
  | FINAL_ANSWER => py "FINAL_ANSWER"
  end.

Record ReActStep : Type := { type : StepType; content : str }.

(** ** The state the agent's methods run in, and their outcomes *)

(** An outcome of a Python call: a value, or a raised exception. *)
Inductive outcome (E A : Type) : Type :=
| Return (a : A)
| Raise (e : E).
Arguments Return {E A}.
Arguments Raise {E A}.

Section Agent.
Context {P : Python} {L : LLMClient (exn P)}.

(** The calls the agent makes on its collaborators and the rebinding of
    [sys.stdout], in the order they happen (a record kept beside the state,
    which the program cannot read). *)
Inductive event : Type :=
| EvCompletion (context : str)
| EvStdout (target : stream)
| EvParse (code : str)
| EvExec (code : str) (globals locals : gmap str (value P)).

(** The attributes of [self], then the process: the binding of [sys.stdout],
    the process's original output stream, the [StringIO] buffers allocated so
    far. *)
Record World : Type := {
  llm_client : client L;
  max_steps : Z;
  history : list ReActStep;
  local_vars : gmap str (value P);
  sys_stdout : stream;
  terminal : buffer;
  buffers : list buffer;
  trace : list event
}.

Definition with_llm_client (c : client L) (w : World) : World :=
  {| llm_client := c; max_steps := max_steps w; history := history w;
     local_vars := local_vars w; sys_stdout := sys_stdout w;
     terminal := terminal w; buffers := buffers w; trace := trace w |}.

Definition with_history (h : list ReActStep) (w : World) : World :=
  {| llm_client := llm_client w; max_steps := max_steps w; history := h;
     local_vars := local_vars w; sys_stdout := sys_stdout w;
     terminal := terminal w; buffers := buffers w; trace := trace w |}.

Definition with_local_vars (v : gmap str (value P)) (w : World) : World :=
  {| llm_client := llm_client w; max_steps := max_steps w; history := history w;
     local_vars := v; sys_stdout := sys_stdout w;
     terminal := terminal w; buffers := buffers w; trace := trace w |}.

Definition with_sys_stdout (s : stream) (w : World) : World :=
  {| llm_client := llm_client w; max_steps := max_steps w; history := history w;
     local_vars := local_vars w; sys_stdout := s;
     terminal := terminal w; buffers := buffers w; trace := trace w |}.

Definition with_terminal (t : buffer) (w : World) : World :=
  {| llm_client := llm_client w; max_steps := max_steps w; history := history w;
     local_vars := local_vars w; sys_stdout := sys_stdout w;
     terminal := t; buffers := buffers w; trace := trace w |}.

Definition with_buffers (b : list buffer) (w : World) : World :=
  {| llm_client := llm_client w; max_steps := max_steps w; history := history w;
     local_vars := local_vars w; sys_stdout := sys_stdout w;
     terminal := terminal w; buffers := b; trace := trace w |}.

Definition log (e : event) (w : World) : World :=
  {| llm_client := llm_client w; max_steps := max_steps w; history := history w;
     local_vars := local_vars w; sys_stdout := sys_stdout w;
     terminal := terminal w; buffers := buffers w; trace := trace w ++ [e] |}.

(** A method body: from the state to an outcome and the state it leaves. *)
Definition M (A : Type) : Type := World -> outcome (exn P) A * World.

Definition ret {A} (a : A) : M A := fun w => (Return a, w).

Definition raise {A} (e : exn P) : M A := fun w => (Raise e, w).

Definition bind {A B} (m : M A) (k : A -> M B) : M B :=
  fun w =>
    match m w with
    | (Return a, w') => k a w'
    | (Raise e, w') => (Raise e, w')
    end.

Definition gets {A} (f : World -> A) : M A := fun w => (Return (f w), w).

Definition modify (f : World -> World) : M unit := fun w => (Return tt, f w).

(** [try: body / except Exception as e: handler(e)]: an exception that is not
    an instance of [Exception] passes through. *)
Definition try_except_Exception {A} (body : M A) (handler : exn P -> M A) : M A :=
  fun w =>
    match body w with
    | (Return a, w') => (Return a, w')
    | (Raise e, w') =>
        if isinstance_Exception P e then handler e w' else (Raise e, w')
    end.

(** [try: body / finally: cleanup]: [cleanup] runs on every way out of [body],
    whose outcome stands unless [cleanup] itself raises. *)
Definition try_finally {A} (body : M A) (cleanup : M unit) : M A :=
  fun w =>
    match body w with
    | (r, w') =>
        match cleanup w' with
        | (Return _, w'') => (r, w'')
        | (Raise e, w'') => (Raise e, w'')
        end
    end.

End Agent.

Arguments event : clear implicits.
Arguments World : clear implicits.
Arguments M : clear implicits.

Declare Scope py_scope.
Delimit Scope py_scope with py.
Notation "x <- c1 ;; c2" := (bind c1 (fun x => c2))
  (at level 100, c1 at next level, right associativity) : py_scope.
Notation "c1 ;; c2" := (bind c1 (fun _ => c2))
  (at level 100, right associativity) : py_scope.

(** ** The agent's methods *)

Section Methods.
Context {P : Python} {L : LLMClient (exn P)}.
Local Open Scope py_scope.

(** [self.llm_client.get_completion(context)] *)
Definition llm_get_completion (context : str) : M P L str :=
  fun w =>
    let '(r, c) := get_completion L (llm_client w) context in
    let w' := log (EvCompletion context) (with_llm_client c w) in
    match r with
    | inl e => (Raise e, w')
    | inr response => (Return response, w')
    end.

(** [l[i]] for [0 <= i]: [IndexError] out of range. *)
Definition getitem {A} (l : list A) (i : nat) : outcome (exn P) A :=
  match l !! i with
  | Some x => Return x
  | None => Raise (index_error P)
  end.

(** A step that neither reads nor changes the state. *)
Definition lift {A} (r : outcome (exn P) A) : M P L A := fun w => (r, w).

(** [sys.stdout = target] *)
Definition set_sys_stdout (target : stream) : M P L unit :=
  modify (fun w => log (EvStdout target) (with_sys_stdout target w)).

(** [StringIO()]: a new, empty, open buffer. *)
Definition new_StringIO : M P L nat :=
  fun w =>
    (Return (length (buffers w)), with_buffers (buffers w ++ [empty_buffer]) w).

(** [buffer.getvalue()]: the text the buffer holds, or [ValueError] when the
    buffer has been closed. (The identifier is that of a buffer made before,
    so the look-up finds it; its failing is read as a closed buffer.) *)
Definition getvalue (id : nat) : M P L str :=
  fun w =>
    match buffers w !! id with
    | Some b =>
        if closed b then (Raise (closed_file_error P), w)
        else (Return (contents b), w)
    | None => (Raise (closed_file_error P), w)
    end.

(** The state after [f] is done to the stream object [s]. *)
Definition stream_alter (s : stream) (f : buffer -> buffer) (w : World P L)
    : World P L :=
  match s with
  | Terminal => with_terminal (f (terminal w)) w
  | StringIO id => with_buffers (alter f id (buffers w)) w
  | Foreign => w
  end.

(** [ast.parse(code)], its result dropped. *)
Definition py_ast_parse (code : str) : M P L unit :=
  fun w =>
    let w' := log (EvParse code) w in
    match ast_parse P code with
    | Some e => (Raise e, w')
    | None => (Return tt, w')
    end.

(** [exec(code, globals, self.local_vars)]: the fragment does what it does to
    the object [sys.stdout] is bound to and to the original output, may leave
    [sys.stdout] bound to something else, and updates the mapping
    [self.local_vars] itself. *)
Definition py_exec (code : str) (globals : gmap str (value P)) : M P L unit :=
  fun w =>
    let eff := exec P code globals (local_vars w) in
    let w1 := log (EvExec code globals (local_vars w)) w in
    let w2 := stream_alter (sys_stdout w) (on_stdout eff) w1 in
    let w3 := with_terminal (on_original eff (terminal w2)) w2 in
    let w4 :=
      match rebinds_stdout eff with
      | Some target => with_sys_stdout target w3
      | None => w3
      end in
    let w' := with_local_vars (locals_after eff) w4 in
    match raised eff with
    | Some e => (Raise e, w')
    | None => (Return tt, w')
    end.

(** [str(e)] *)
Definition py_str (e : exn P) : M P L str :=
  match exn_str P e with
  | inl e' => raise e'
  | inr s => ret s
  end.

(** [ReActAgent(llm_client, max_steps)] in a process that has not touched
    [sys.stdout] yet. *)
Definition __init__ (llm_client : client L) (max_steps : Z) : World P L :=
  {| llm_client := llm_client; max_steps := max_steps; history := [];
     local_vars := ∅; sys_stdout := Terminal; terminal := empty_buffer;
     buffers := [];
     trace := [] |}.

Definition _add_step (step_type : StepType) (content : str) : M P L unit :=
  modify (fun w =>
    with_history (history w ++ [{| type := step_type; content := content |}]) w).

Definition _format_history : M P L str :=
  steps <- gets history ;;
  let formatted :=
    fold_left
      (fun formatted step =>
         formatted ++ [StepType_value (type step) ++ py ":" ++ NL ++ content step ++ NL])
      steps [] in
  ret (str_join NL formatted).

(** The part of [_reason] after the model call (the specification's
    [split]): it touches no state. *)
Definition split_response (response : str) : outcome (exn P) (str * option str) :=
  if str_in (py "ACTION:") response then
    match getitem (str_split response (py "ACTION:")) 0 with
    | Raise e => Raise e
    | Return before =>
        let thought := str_strip before in
        match getitem (str_split response (py "ACTION:")) 1 with
        | Raise e => Raise e
        | Return after =>
            let code := str_strip after in
            Return (thought, Some code)
        end
    end
  else
    Return (response, None).

Definition _reason (task context : str) : M P L (str * option str) :=
  response <- llm_get_completion context ;;
  lift (split_response response).

Definition _act (code : str) : M P L str :=
  old_stdout <- gets sys_stdout ;;
  redirected_output <- new_StringIO ;;
  set_sys_stdout (StringIO redirected_output) ;;
  try_finally
    (try_except_Exception
       (py_ast_parse code ;;
        py_exec code ∅ ;;
        output <- getvalue redirected_output ;;
        ret (match output with
             | [] => py "Code executed successfully with no output"
             | _ :: _ => output
             end))
       (fun e =>
          message <- py_str e ;;
          ret (py "Error executing code: " ++ message)))
    (set_sys_stdout old_stdout).

(** The prompt [run] builds from the task. *)
Definition run_prompt (task : str) : str :=
  py "Task: " ++ task ++ NL ++ NL
  ++ py "Solve this step by step:" ++ NL
  ++ py "1. Think about the solution" ++ NL
  ++ py "2. Generate Python code to implement it" ++ NL
  ++ py "3. Observe the results and iterate if needed" ++ NL ++ NL
  ++ py "Use these markers:" ++ NL
  ++ py "THOUGHT: for explaining your reasoning" ++ NL
  ++ py "ACTION: for Python code to execute" ++ NL
  ++ py "FINAL ANSWER: when you have solved the task".

(** One round of the loop of [run]: [Some answer] when the round leaves the
    method by [return answer], [None] when it falls through to the next
    round. *)
Definition run_round (task prompt : str) : M P L (option str) :=
  formatted <- _format_history ;;
  let current_context := prompt ++ NL ++ NL ++ formatted in
  thought_code <- _reason task current_context ;;
  let thought := fst thought_code in
  let code := snd thought_code in
  if str_in (py "FINAL ANSWER:") thought then
    _add_step FINAL_ANSWER thought ;;
    ret (Some thought)
  else
    _add_step THOUGHT thought ;;
    match code with
    | Some code =>
        _add_step ACTION code ;;
        observation <- _act code ;;
        _add_step OBSERVATION observation ;;
        ret None
    | None => ret None
    end.

(** [for _ in range(n): ...] followed by the [return] after the loop. *)
Fixpoint run_loop (n : nat) (task prompt : str) : M P L str :=
  match n with
  | O => ret (py "Maximum steps reached without finding solution")
  | S n' =>
      r <- run_round task prompt ;;
      match r with
      | Some answer => ret answer
      | None => run_loop n' task prompt
      end
  end.

(** [range(self.max_steps)] is empty when [self.max_steps <= 0]. *)
Definition run (task : str) : M P L str :=
  rounds <- gets max_steps ;;
  run_loop (Z.to_nat rounds) task (run_prompt task).

End Methods.

Arguments split_response : clear implicits.

(** ** A fragment of Python, to run the agent on

    An instance of the runtime interface for sources of this shape, one
    statement per line (lines of blanks only are skipped):

      stmt ::= pass | NAME = expr | print(expr) | raise CLASS
             | __import__('sys').stdout.close()
      expr ::= sum | (lambda: sum)()
      sum  ::= atom | sum + atom           atom ::= NAME | INT

    with NAME a single lower-case letter (no keyword or builtin has such a
    name), INT a decimal literal without leading zero and of at most 4300
    digits, and CLASS one of the builtin exception classes below. Values are
    integers. On these sources the instance does what CPython 3.11 does
    when [_act] runs them. Every other source is outside the fragment, and
    is rejected as a plain syntax error. *)

Module MiniPython.

Inductive exc_class : Type :=
| BaseException | Exception | KeyboardInterrupt | SystemExit | GeneratorExit
| SyntaxError | NameError | TypeError | IndexError | ValueError | RuntimeError.

(** [issubclass(c, Exception)] in the builtin hierarchy. *)
Definition issubclass_Exception (c : exc_class) : bool :=
  match c with
  | BaseException | KeyboardInterrupt | SystemExit | GeneratorExit => false
  | _ => true
  end.

(** An exception object of a builtin class: [str(e)] is its message. *)
Record exception : Type := { exc_type : exc_class; exc_message : str }.

Inductive token : Type :=
| TName (id : str)
| TInt (n : Z)
| TEqual | TPlus | TLPar | TRPar | TColon.

(** [CallLambda body] is [(lambda: body)()]. *)
Inductive expr : Type :=
| Name (id : str)
| Constant (n : Z)
| Add (left right : expr)
| CallLambda (body : expr).

Inductive stmt : Type :=
| Pass
| Assign (target : str) (e : expr)
| Print (e : expr)
| RaiseClass (c : exc_class)
| CloseStdout.

Definition is_digit (c : char) : bool := ((48 <=? c) && (c <=? 57))%N.
Definition is_lower (c : char) : bool := ((97 <=? c) && (c <=? 122))%N.
Definition is_upper (c : char) : bool := ((65 <=? c) && (c <=? 90))%N.
Definition is_word_char (c : char) : bool :=
  is_digit c || is_lower c || is_upper c || (c =? 95)%N.

Definition digits_value (word : str) : Z :=
  fold_left (fun acc c => (10 * acc + (Z.of_N c - 48))%Z) word 0%Z.

(** The limit CPython puts on the digits of a decimal integer it converts. *)
Definition max_str_digits : N := 4300.

(** The token a maximal run of word characters is. *)
Definition word_token (word : str) : option token :=
  match word with
  | [] => None
  | c :: rest =>
      if is_digit c then
        if forallb is_digit rest
           && (negb (c =? 48)%N || bool_decide (rest = []))
           && (N.of_nat (length word) <=? max_str_digits)%N
        then Some (TInt (digits_value word)) else None
      else Some (TName word)
  end.

Definition flush (word : str) (rest : option (list token)) : option (list token) :=
  match word with
  | [] => rest
  | _ :: _ =>
      match word_token word, rest with
      | Some t, Some ts => Some (t :: ts)
      | _, _ => None
      end
  end.

(** The tokens of one line; [word] is the run of word characters read so far.
    Blanks separate tokens. *)
Fixpoint lex_from (word : str) (line : str) : option (list token) :=
  match line with
  | [] => flush word (Some [])
  | c :: line' =>
      if is_word_char c then lex_from (word ++ [c]) line'
      else if (c =? 32)%N then flush word (lex_from [] line')
      else if (c =? 61)%N then flush word (cons TEqual <$> lex_from [] line')
      else if (c =? 43)%N then flush word (cons TPlus <$> lex_from [] line')
      else if (c =? 40)%N then flush word (cons TLPar <$> lex_from [] line')
      else if (c =? 41)%N then flush word (cons TRPar <$> lex_from [] line')
      else if (c =? 58)%N then flush word (cons TColon <$> lex_from [] line')
      else None
  end.

(** A line of blanks only has no token; any other line may not start with a
    blank (the fragment has no indented block). *)
Definition lex (line : str) : option (list token) :=
  if forallb (fun c => (c =? 32)%N) line then Some []
  else
    match line with
    | c :: _ => if (c =? 32)%N then None else lex_from [] line
    | [] => Some []
    end.

Definition is_variable (id : str) : bool :=
  match id with
  | [c] => is_lower c
  | _ => false
  end.

Definition class_named (id : str) : option exc_class :=
  if bool_decide (id = py "BaseException") then Some BaseException
  else if bool_decide (id = py "Exception") then Some Exception
  else if bool_decide (id = py "KeyboardInterrupt") then Some KeyboardInterrupt
  else if bool_decide (id = py "SystemExit") then Some SystemExit
  else if bool_decide (id = py "GeneratorExit") then Some GeneratorExit
  else if bool_decide (id = py "SyntaxError") then Some SyntaxError
  else if bool_decide (id = py "NameError") then Some NameError
  else if bool_decide (id = py "TypeError") then Some TypeError
  else if bool_decide (id = py "IndexError") then Some IndexError
  else if bool_decide (id = py "ValueError") then Some ValueError
  else if bool_decide (id = py "RuntimeError") then Some RuntimeError
  else None.

Definition class_name (c : exc_class) : str :=
  match c with
  | BaseException => py "BaseException"
  | Exception => py "Exception"
  | KeyboardInterrupt => py "KeyboardInterrupt"
  | SystemExit => py "SystemExit"
  | GeneratorExit => py "GeneratorExit"
  | SyntaxError => py "SyntaxError"
  | NameError => py "NameError"
  | TypeError => py "TypeError"
  | IndexError => py "IndexError"
  | ValueError => py "ValueError"
  | RuntimeError => py "RuntimeError"
  end.

Definition parse_atom (t : token) : option expr :=
  match t with
  | TName id => if is_variable id then Some (Name id) else None
  | TInt n => Some (Constant n)
  | _ => None
  end.

(** [+ atom + atom ...] after the expression [acc]. *)
Fixpoint parse_sum (acc : expr) (ts : list token) : option expr :=
  match ts with
  | [] => Some acc
  | TPlus :: t :: ts' =>
      match parse_atom t with
      | Some a => parse_sum (Add acc a) ts'
      | None => None
      end
  | _ => None
  end.

Definition parse_sum_expr (ts : list token) : option expr :=
  match ts with
  | t :: ts' =>
      match parse_atom t with
      | Some a => parse_sum a ts'
      | None => None
      end
  | [] => None
  end.

Definition parse_expr (ts : list token) : option expr :=
  match ts with
  | TLPar :: TName id :: TColon :: ts' =>
      if bool_decide (id = py "lambda") then
        match reverse ts' with
        | TRPar :: TLPar :: TRPar :: body =>
            CallLambda <$> parse_sum_expr (reverse body)
        | _ => None
        end
      else None
  | _ => parse_sum_expr ts
  end.

(** The statement on one line of tokens; a blank line is no statement. *)
Definition parse_line (ts : list token) : option (list stmt) :=
  match ts with
  | [] => Some []
  | [TName id] => if bool_decide (id = py "pass") then Some [Pass] else None
  | TName id :: TEqual :: ts' =>
      if is_variable id then (fun e => [Assign id e]) <$> parse_expr ts' else None
  | TName id :: TLPar :: ts' =>
      if bool_decide (id = py "print") then
        match reverse ts' with
        | TRPar :: inner => (fun e => [Print e]) <$> parse_expr (reverse inner)
        | _ => None
        end
      else None
  | [TName id; TName c] =>
      if bool_decide (id = py "raise") then (fun c => [RaiseClass c]) <$> class_named c
      else None
  | _ => None
  end.

(** The one statement of the fragment that is read as a whole line. *)
Definition close_stdout_source : str := py "__import__('sys').stdout.close()".

Definition parse_statement (line : str) : option (list stmt) :=
  if bool_decide (line = close_stdout_source) then Some [CloseStdout]
  else lex line ≫= parse_line.

(** The statements of the lines from line number [lineno] on, or the number of
    the first line that is not in the fragment. *)
Fixpoint parse_lines (lineno : nat) (lines : list str) : nat + list stmt :=
  match lines with
  | [] => inr []
  | line :: lines' =>
      match parse_statement line with
      | None => inl lineno
      | Some here =>
          match parse_lines (S lineno) lines' with
          | inl bad => inl bad
          | inr rest => inr (here ++ rest)
          end
      end
  end.

Definition parse (source : str) : nat + list stmt :=
  parse_lines 1 (str_split source NL).

Definition value_error (message : str) : exception :=
  {| exc_type := ValueError; exc_message := message |}.

(** [str(n)] for an [int] of at most 4300 digits. *)
Definition str_of_int (n : Z) : str := py (NilZero.string_of_int (Z.to_int n)).

(** [str(n)] for any [int]: CPython refuses to convert more than 4300
    digits. *)
Definition int_str (n : Z) : exception + str :=
  if (max_str_digits
      <? N.of_nat (length (py (NilZero.string_of_uint (N.to_uint (Z.abs_N n))))))%N
  then
    inl (value_error
           (py "Exceeds the limit (4300 digits) for integer string conversion; "
            ++ py "use sys.set_int_max_str_digits() to increase the limit"))
  else inr (str_of_int n).

Definition syntax_error (filename : str) (lineno : nat) : exception :=
  {| exc_type := SyntaxError;
     exc_message := py "invalid syntax (" ++ filename ++ py ", line "
                    ++ str_of_int (Z.of_nat lineno) ++ py ")" |}.

Definition name_error (id : str) : exception :=
  {| exc_type := NameError;
     exc_message := py "name '" ++ id ++ py "' is not defined" |}.

Definition type_error (message : str) : exception :=
  {| exc_type := TypeError; exc_message := message |}.

Definition closed_file : exception :=
  value_error (py "I/O operation on closed file").

(** [C()] for a builtin exception class: [str()] of it is empty, but for a
    [SyntaxError], whose message is then [None]. *)
Definition instance_of (c : exc_class) : exception :=
  {| exc_type := c;
     exc_message := match c with SyntaxError => py "None" | _ => [] end |}.

(** A name is looked up in the locals, then in the globals (the builtins come
    last, and hold no variable of the fragment). *)
Definition lookup_name (globals locals : gmap str Z) (id : str) : option Z :=
  match locals !! id with
  | Some v => Some v
  | None => globals !! id
  end.

(** The body of a lambda runs in a scope of its own: the names in it are
    looked up in the globals, not in the locals of the code around it. *)
Fixpoint eval (globals locals : gmap str Z) (e : expr) : exception + Z :=
  match e with
  | Name id =>
      match lookup_name globals locals id with
      | Some v => inr v
      | None => inl (name_error id)
      end
  | Constant n => inr n
  | Add a b =>
      match eval globals locals a with
      | inl x => inl x
      | inr va =>
          match eval globals locals b with
          | inl x => inl x
          | inr vb => inr (va + vb)%Z
          end
      end
  | CallLambda body => eval globals ∅ body
  end.

(** What a run of the fragment that wrote [out] to [sys.stdout], and closed
    it or not, has done: the text is added to the stream, nothing goes to the
    original output and [sys.stdout] is not rebound. *)
Definition effect (out : str) (shut : bool) (locals : gmap str Z)
    (raised : option exception) : exec_effect Z exception :=
  ExecEffect
    (fun b => {| contents := contents b ++ out;
                 closed := if shut then true else closed b |})
    (fun b => b) None locals raised.

(** The statements in order, from the locals [locals], the output [out]
    written so far and whether the code has closed [sys.stdout] ([shut]), up
    to the first exception. The builtins [print], [__import__] and the
    exception classes are found only when no variable shadows them; a variable
    holds an integer, which can be neither called (the call fails once its
    argument is evaluated) nor raised. [print] converts its argument, then
    writes, which a closed stream refuses. *)
Fixpoint exec_stmts (globals : gmap str Z) (body : list stmt)
    (locals : gmap str Z) (out : str) (shut : bool) : exec_effect Z exception :=
  match body with
  | [] => effect out shut locals None
  | Pass :: body' => exec_stmts globals body' locals out shut
  | Assign target e :: body' =>
      match eval globals locals e with
      | inl x => effect out shut locals (Some x)
      | inr v => exec_stmts globals body' (<[target := v]> locals) out shut
      end
  | Print e :: body' =>
      match eval globals locals e with
      | inl x => effect out shut locals (Some x)
      | inr v =>
          match lookup_name globals locals (py "print") with
          | Some _ =>
              effect out shut locals
                (Some (type_error (py "'int' object is not callable")))
          | None =>
              match int_str v with
              | inl x => effect out shut locals (Some x)
              | inr text =>
                  if shut then effect out shut locals (Some closed_file)
                  else exec_stmts globals body' locals (out ++ text ++ NL) shut
              end
          end
      end
  | RaiseClass c :: _ =>
      match lookup_name globals locals (class_name c) with
      | Some _ =>
          effect out shut locals
            (Some (type_error (py "exceptions must derive from BaseException")))
      | None => effect out shut locals (Some (instance_of c))
      end
  | CloseStdout :: body' =>
      match lookup_name globals locals (py "__import__") with
      | Some _ =>
          effect out shut locals
            (Some (type_error (py "'int' object is not callable")))
      | None => exec_stmts globals body' locals out true
      end
  end.


Definition mini_ast_parse (source : str) : option exception :=
  match parse source with
  | inl lineno => Some (syntax_error (py "<unknown>") lineno)
  | inr _ => None
  end.

Definition mini_exec (source : str) (globals locals : gmap str Z)
    : exec_effect Z exception :=
  match parse source with
  | inl lineno => effect [] false locals (Some (syntax_error (py "<string>") lineno))
  | inr body => exec_stmts globals body locals [] false
  end.

Definition runtime : Python :=
  {| value := Z;
     exn := exception;
     isinstance_Exception := fun e => issubclass_Exception (exc_type e);
     exn_str := fun e => inr (exc_message e);
     index_error := {| exc_type := IndexError;
                       exc_message := py "list index out of range" |};
     closed_file_error := closed_file;
     closed_file_error_caught := eq_refl;
     closed_file_error_str := eq_refl;
     ast_parse := mini_ast_parse;
     exec := mini_exec |}.

(** A client that answers from a script, one completion per call, and raises
    once the script is used up. *)
Definition scripted : LLMClient exception :=
  {| client := list str;
     get_completion := fun script _ =>
       match script with
       | response :: script' => (inr response, script')
       | [] => (inl {| exc_type := RuntimeError; exc_message := py "no completion left" |}, [])
       end |}.

(** A client that gives the same completion to every call. *)
Definition constant (response : str) : LLMClient exception :=
  {| client := unit;
     get_completion := fun c _ => (inr response, c) |}.

(** An agent on this runtime whose client answers from [script]. *)
Definition agent (script : list str) (max_steps : Z) : World runtime scripted :=
  @__init__ runtime scripted script max_steps.

(** An agent whose client always answers [response]. *)
Definition agent_hearing (response : str) (max_steps : Z)
    : World runtime (constant response) :=
  @__init__ runtime (constant response) tt max_steps.

End MiniPython.

(** ** Vocabulary of the statements *)

(** [sub] occurs in [s]; and [pre], [post] are what stands before and after
    its first occurrence. *)
Definition occurs (sub s : str) : Prop :=
  exists pre post, s = pre ++ sub ++ post.

Definition first_occurrence (s sub pre post : str) : Prop :=
  s = pre ++ sub ++ post
  /\ forall pre' post', s = pre' ++ sub ++ post' -> length pre <= length pre'.

(** [part] is [s] up to the next occurrence of [sub], or all of [s] when there
    is none. *)
Definition up_to_next (sub s part : str) : Prop :=
  (~ occurs sub s /\ part = s) \/ (exists rest, first_occurrence s sub part rest).

(** [s] with the white space [left] and [right] around it taken off. *)
Definition trimmed (s left middle right : str) : Prop :=
  s = left ++ middle ++ right
  /\ forallb isspace left = true /\ forallb isspace right = true
  /\ (forall c, head middle = Some c -> isspace c = false)
  /\ (forall c, last middle = Some c -> isspace c = false).

(** The block [_format_history] renders a step as. *)
Definition block (step : ReActStep) : str :=
  StepType_value (type step) ++ py ":" ++ NL ++ content step ++ NL.

Section Vocabulary.
Context {P : Python} {L : LLMClient (exn P)}.

(** The events between the state [w] and a later state [w']. *)
Definition events_between (w w' : World P L) : list (event P) :=
  drop (length (trace w)) (trace w').

(** The events of running [m] from [w]. *)
Definition events_of {A} (m : M P L A) (w : World P L) : list (event P) :=
  events_between w (snd (m w)).

Definition is_completion (e : event P) : bool :=
  match e with
  | EvCompletion _ => true
  | _ => false
  end.

Definition is_exec (e : event P) : bool :=
  match e with
  | EvExec _ _ _ => true
  | _ => false
  end.

(** The number of model calls among the events. *)
Definition model_calls (evs : list (event P)) : nat :=
  length (filter (fun e => is_completion e = true) evs).

(** Along the events [evs], every [exec] gets empty globals and, as its
    locals, the mapping the previous [exec] left ([scope] for the first one);
    [final] is the mapping after the last one. *)
Fixpoint scope_threaded (scope : gmap str (value P)) (evs : list (event P))
    (final : gmap str (value P)) : Prop :=
  match evs with
  | [] => final = scope
  | EvExec code globals locals :: evs' =>
      globals = ∅ /\ locals = scope
      /\ scope_threaded (locals_after (exec P code globals locals)) evs' final
  | _ :: evs' => scope_threaded scope evs' final
  end.

(** The exception syntax validation or execution of [code] raises in the
    state [w], if any. *)
Definition failure (code : str) (w : World P L) : option (exn P) :=
  match ast_parse P code with
  | Some e => Some e
  | None => raised (exec P code ∅ (local_vars w))
  end.


(** The client never ends the run and never breaks it: every call gives a
    completion whose thought holds no FINAL ANSWER: marker and whose code, if
    any, is code that [_act] survives in every state. *)
Definition keeps_going : Prop :=
  forall (c : client L) (context : str),
  exists response c' thought code,
    get_completion L c context = (inr response, c')
    /\ split_response P response = Return (thought, code)
    /\ str_in (py "FINAL ANSWER:") thought = false
    /\ (forall source, code = Some source ->
        forall w : World P L, exists observation,
          fst (_act source w) = Return observation).

End Vocabulary.
Arguments keeps_going : clear implicits.

(** Unfolds one call of [_act] down to the interpreter's answers. *)
Ltac act_unfold :=
  unfold _act, try_finally, try_except_Exception, bind, gets, new_StringIO,
    set_sys_stdout, modify, py_ast_parse, py_exec, getvalue, py_str, ret, raise,
    stream_alter; cbn.

(** Splits on the answers of the interpreter that the goal still waits for. *)
Ltac act_cases :=
  repeat
    (cbn;
     match goal with
     | |- context [match ast_parse ?P ?c with _ => _ end] =>
         destruct (ast_parse P c) eqn:?
     | |- context [match raised ?x with _ => _ end] => destruct (raised x) eqn:?
     | |- context [match rebinds_stdout ?x with _ => _ end] =>
         destruct (rebinds_stdout x) eqn:?
     | |- context [if closed ?b then _ else _] => destruct (closed b) eqn:?
     | |- context [isinstance_Exception ?P (closed_file_error ?P)] =>
         rewrite (closed_file_error_caught P)
     | |- context [exn_str ?P (closed_file_error ?P)] =>
         rewrite (closed_file_error_str P)
     | |- context [if isinstance_Exception ?P ?e then _ else _] =>
         destruct (isinstance_Exception P e) eqn:?
     | |- context [match exn_str ?P ?e with _ => _ end] =>
         destruct (exn_str P e) eqn:?
     end);
  cbn.

(** ** Vocabulary of the further properties *)

(** The kinds of the steps a run appends, round after round: a round leaves
    THOUGHT, or THOUGHT, ACTION, OBSERVATION; the last one may instead leave
    FINAL_ANSWER, or THOUGHT, ACTION when the code's exception got through,
    or nothing when the model call failed. *)
Fixpoint round_steps (kinds : list StepType) : bool :=
  match kinds with
  | [] => true
  | THOUGHT :: rest =>
      match rest with
      | ACTION :: rest' =>
          match rest' with
          | [] => true
          | OBSERVATION :: rest'' => round_steps rest''
          | _ :: _ => false
          end
      | _ => round_steps rest
      end
  | [FINAL_ANSWER] => true
  | _ :: _ => false
  end.

(** The number of [exec] calls among the events. *)
Definition exec_calls {P : Python} (evs : list (event P)) : nat :=
  length (filter (fun e => is_exec e = true) evs).

(** Along the events, every [exec] comes after a model call that no earlier
    [exec] has followed; [pending] says that such a model call has been made
    before the events. *)
Fixpoint one_exec_per_call {P : Python} (pending : bool) (evs : list (event P))
    : bool :=
  match evs with
  | [] => true
  | EvCompletion _ :: evs' => one_exec_per_call true evs'
  | EvExec _ _ _ :: evs' => pending && one_exec_per_call false evs'
  | _ :: evs' => one_exec_per_call pending evs'
  end.

(** [e] is no model call, or a model call whose context starts with [prompt]
    and a blank line. *)
Definition asks_under {P : Python} (prompt : str) (e : event P) : bool :=
  match e with
  | EvCompletion context => str_startswith context (prompt ++ NL ++ NL)
  | _ => true
  end.

(** ** Strings: searching and splitting *)

Lemma str_startswith_spec (s p : str) :
  str_startswith s p = true <-> exists post, s = p ++ post.
Proof.
  revert s. induction p as [|a p IH]; intros s; simpl.
  - split; [intros _; by exists s | by destruct s].
  - destruct s as [|b s]; simpl.
    + split; [done | intros [post H]; discriminate].
    + rewrite andb_true_iff, N.eqb_eq, IH. split.
      * intros [-> [post ->]]. by exists post.
      * intros [post H]. injection H as -> ->. split; [done | by exists post].
Qed.

Lemma str_find_le (s sub : str) (i : nat) :
  str_find s sub = Some i -> i <= length s.
Proof.
  revert i. induction s as [|c s IH]; intros i; cbn [str_find].
  - destruct (str_startswith [] sub); [intros [= <-]; simpl; lia | done].
  - destruct (str_startswith (c :: s) sub); [intros [= <-]; simpl; lia |].
    destruct (str_find s sub) as [j|] eqn:E; simpl; [|done].
    intros [= <-]. specialize (IH j eq_refl). lia.
Qed.

Lemma str_find_first (s sub : str) (i : nat) :
  str_find s sub = Some i ->
  first_occurrence s sub (take i s) (drop (i + length sub) s).
Proof.
  revert i. induction s as [|c s IH]; intros i.
  - cbn [str_find]. destruct (str_startswith [] sub) eqn:E; [|done].
    intros [= <-]. apply str_startswith_spec in E as [post E].
    destruct sub; [|done]. split; [done | intros; simpl; lia].
  - cbn [str_find]. destruct (str_startswith (c :: s) sub) eqn:E.
    + intros [= <-]. apply str_startswith_spec in E as [post E].
      split; [|intros; simpl; lia].
      rewrite E. cbn [take Nat.add app]. by rewrite drop_app_length.
    + destruct (str_find s sub) as [j|] eqn:F; simpl; [|done].
      intros [= <-]. destruct (IH j eq_refl) as [Hs Hmin]. split.
      * simpl. by rewrite <- Hs.
      * intros pre' post' H. destruct pre' as [|c' pre'].
        -- assert (str_startswith (c :: s) sub = true) as E'
             by (apply str_startswith_spec; by exists post').
           congruence.
        -- simpl in H. injection H as <- H.
           specialize (Hmin _ _ H). simpl. lia.
Qed.

Lemma str_find_None (s sub : str) : str_find s sub = None -> ~ occurs sub s.
Proof.
  induction s as [|c s IH]; cbn [str_find].
  - destruct (str_startswith [] sub) eqn:E; [done|]. intros _ (pre & post & H).
    destruct pre; [|done]. assert (str_startswith [] sub = true) as E'
      by (apply str_startswith_spec; by exists post). congruence.
  - destruct (str_startswith (c :: s) sub) eqn:E; [done|].
    destruct (str_find s sub) as [j|] eqn:F; simpl; [done|].
    intros _ (pre & post & H). destruct pre as [|c' pre].
    + assert (str_startswith (c :: s) sub = true) as E'
        by (apply str_startswith_spec; by exists post). congruence.
    + simpl in H. injection H as <- H. apply IH; [done|]. by exists pre, post.
Qed.

Lemma first_occurrence_find (s sub pre post : str) :
  first_occurrence s sub pre post ->
  str_find s sub = Some (length pre)
  /\ take (length pre) s = pre /\ drop (length pre + length sub) s = post.
Proof.
  intros [Hs Hmin]. destruct (str_find s sub) as [i|] eqn:F.
  - pose proof (str_find_le _ _ _ F) as Hle.
    destruct (str_find_first _ _ _ F) as [Hs' Hmin'].
    specialize (Hmin _ _ Hs'). specialize (Hmin' _ _ Hs).
    rewrite length_take in Hmin, Hmin'.
    assert (i = length pre) as -> by lia.
    split; [done|]. subst s. split.
    + by rewrite take_app_length.
    + rewrite drop_app_add', drop_app_length; done.
  - exfalso. apply (str_find_None _ _ F). by exists pre, post.
Qed.

Lemma str_in_occurs (sub s : str) : str_in sub s = true <-> occurs sub s.
Proof.
  unfold str_in. rewrite bool_decide_eq_true. split.
  - intros [i F]. destruct (str_find_first _ _ _ F) as [Hs _]. eauto using Hs.
    by eexists _, _.
  - intros (pre & post & H). destruct (str_find s sub) eqn:F; [by eexists|].
    exfalso. apply (str_find_None _ _ F). by exists pre, post.
Qed.

Lemma str_find_nil (sep : str) : sep <> [] -> str_find [] sep = None.
Proof. by destruct sep. Qed.

(** Any number of rounds from [length s] on gives the same pieces. *)
Lemma str_split_rounds_enough (sep : str) :
  sep <> [] ->
  forall (n m : nat) (s : str),
    length s <= n -> length s <= m ->
    str_split_rounds n s sep = str_split_rounds m s sep.
Proof.
  intros Hsep. induction n as [|n IH]; intros m s Hn Hm.
  - destruct s; [|simpl in Hn; lia].
    destruct m; cbn [str_split_rounds]; [done|]. by rewrite str_find_nil.
  - destruct m as [|m].
    + destruct s; [|simpl in Hm; lia].
      cbn [str_split_rounds]. by rewrite str_find_nil.
    + cbn [str_split_rounds]. destruct (str_find s sep) as [i|]; [|done].
      f_equal. assert (0 < length sep) by (destruct sep; [done | simpl; lia]).
      apply IH; rewrite length_drop; lia.
Qed.

(** The equation [str.split] obeys: the rounds never run out. *)
Lemma str_split_unfold (s sep : str) :
  sep <> [] ->
  str_split s sep =
    match str_find s sep with
    | None => [s]
    | Some i => take i s :: str_split (drop (i + length sep) s) sep
    end.
Proof.
  intros Hsep. unfold str_split. destruct s as [|c s].
  - by rewrite str_find_nil.
  - cbn [length str_split_rounds].
    destruct (str_find (c :: s) sep) as [i|]; [|done]. f_equal.
    assert (0 < length sep) by (destruct sep; [done | simpl; lia]).
    apply str_split_rounds_enough; [done | |done].
    rewrite length_drop. simpl. lia.
Qed.

Lemma str_split_first (s sep pre post : str) :
  sep <> [] -> first_occurrence s sep pre post ->
  str_split s sep = pre :: str_split post sep.
Proof.
  intros Hsep H. rewrite str_split_unfold by done.
  destruct (first_occurrence_find _ _ _ _ H) as (-> & -> & ->). done.
Qed.

Lemma str_split_absent (s sep : str) :
  sep <> [] -> ~ occurs sep s -> str_split s sep = [s].
Proof.
  intros Hsep H. rewrite str_split_unfold by done.
  destruct (str_find s sep) as [i|] eqn:F; [|done].
  exfalso. apply H. destruct (str_find_first _ _ _ F) as [Hs _]. by eexists _, _.
Qed.

(** *** Trimming *)

Lemma str_lstrip_spec (s : str) :
  exists ws, s = ws ++ str_lstrip s /\ forallb isspace ws = true
    /\ forall c, head (str_lstrip s) = Some c -> isspace c = false.
Proof.
  induction s as [|c s (ws & Hs & Hws & Hhead)]; cbn [str_lstrip].
  - by exists [].
  - destruct (isspace c) eqn:E.
    + exists (c :: ws). cbn [forallb app]. rewrite E, Hws, <- Hs. done.
    + exists []. split; [done|]. split; [done|]. simpl. congruence.
Qed.

(** [s.strip()] is [s] without the white space around it. *)
Lemma str_strip_trimmed (s : str) :
  exists left right, trimmed s left (str_strip s) right.
Proof.
  unfold str_strip, str_rstrip.
  destruct (str_lstrip_spec s) as (l & Hs & Hl & Hhead).
  destruct (str_lstrip_spec (reverse (str_lstrip s))) as (r & Ht & Hr & Hlast).
  set (t := str_lstrip s) in *. set (u := str_lstrip (reverse t)) in *.
  assert (t = reverse u ++ reverse r) as Ht'.
  { rewrite <- reverse_app, <- Ht. by rewrite reverse_involutive. }
  exists l, (reverse r). split; [|split; [|split; [|split]]].
  - by rewrite <- Ht'.
  - done.
  - rewrite forallb_forall in Hr |- *. intros c Hc. apply Hr.
    rewrite <- list_elem_of_In in Hc |- *. by apply elem_of_reverse.
  - intros c Hc. apply Hhead. rewrite Ht'. destruct (reverse u); [done|]. done.
  - intros c Hc. apply Hlast. by rewrite <- last_reverse.
Qed.

Lemma first_occurrence_by_find (s sub pre post : str) :
  str_find s sub = Some (length pre) -> s = pre ++ sub ++ post ->
  first_occurrence s sub pre post.
Proof.
  intros F Hs. pose proof (str_find_first _ _ _ F) as H.
  rewrite Hs in H at 2 3. rewrite take_app_length in H.
  rewrite drop_app_add', drop_app_length in H; done.
Qed.

(** ** The response splitter *)

Section Splitter.
Context {P : Python} {L : LLMClient (exn P)}.

Lemma ACTION_marker_nonempty : py "ACTION:" <> [].
Proof. done. Qed.

Lemma split_response_marked (response pre post part : str) :
  first_occurrence response (py "ACTION:") pre post ->
  up_to_next (py "ACTION:") post part ->
  split_response P response = Return (str_strip pre, Some (str_strip part)).
Proof.
  intros Hfirst Hnext. unfold split_response.
  assert (str_in (py "ACTION:") response = true) as ->.
  { apply str_in_occurs. destruct Hfirst as [-> _]. by eexists _, _. }
  rewrite (str_split_first _ _ _ _ ACTION_marker_nonempty Hfirst).
  destruct Hnext as [[Hnone ->] | [rest Hsecond]].
  - by rewrite (str_split_absent _ _ ACTION_marker_nonempty Hnone).
  - by rewrite (str_split_first _ _ _ _ ACTION_marker_nonempty Hsecond).
Qed.

Lemma split_response_unmarked (response : str) :
  ~ occurs (py "ACTION:") response ->
  split_response P response = Return (response, None).
Proof.
  intros H. unfold split_response.
  destruct (str_in (py "ACTION:") response) eqn:E; [|done].
  by apply str_in_occurs in E.
Qed.

(** [split_response] never fails: the subscripts [0] and [1] are in range
    whenever the marker is there. *)
Lemma split_response_returns (response : str) :
  exists thought code, split_response P response = Return (thought, code).
Proof.
  destruct (str_find response (py "ACTION:")) as [i|] eqn:F.
  - pose proof (str_find_first _ _ _ F) as Hfirst.
    set (post := drop (i + length (py "ACTION:")) response) in *.
    destruct (str_find post (py "ACTION:")) as [j|] eqn:G.
    + eexists _, _. eapply split_response_marked; [done|].
      right. eexists. by apply str_find_first.
    + eexists _, _. eapply split_response_marked; [done|].
      left. split; [|done]. by apply str_find_None.
  - eexists _, _. apply split_response_unmarked. by apply str_find_None.
Qed.

Lemma _reason_eq (task context : str) (w : World P L) :
  _reason task context w =
    match get_completion L (llm_client w) context with
    | (inr response, c) =>
        (split_response P response,
         log (EvCompletion context) (with_llm_client c w))
    | (inl e, c) => (Raise e, log (EvCompletion context) (with_llm_client c w))
    end.
Proof.
  unfold _reason, bind, llm_get_completion, lift.
  by destruct (get_completion L (llm_client w) context) as [[e|response] c].
Qed.

(** C2, as the code has it. When the model's response contains the marker
    ACTION:, [_reason] returns as thought the text before the first
    occurrence, trimmed, and as code the text between the first occurrence and
    the next one (or the end of the response when there is no other), trimmed;
    when the response holds no marker, the thought is the whole response,
    untrimmed, and the code is absent. Either way the only effect is the one
    model call. *)
Theorem reason_splits_at_marker (task context : str) (w : World P L)
    (response : str) (c : client L) :
  get_completion L (llm_client w) context = (inr response, c) ->
  (forall pre post part,
     first_occurrence response (py "ACTION:") pre post ->
     up_to_next (py "ACTION:") post part ->
     _reason task context w =
       (Return (str_strip pre, Some (str_strip part)),
        log (EvCompletion context) (with_llm_client c w)))
  /\ (~ occurs (py "ACTION:") response ->
      _reason task context w =
        (Return (response, None),
         log (EvCompletion context) (with_llm_client c w))).
Proof.
  intros Hllm. rewrite _reason_eq, Hllm. split.
  - intros pre post part Hfirst Hnext.
    by rewrite (split_response_marked _ _ _ _ Hfirst Hnext).
  - intros Hnone. by rewrite (split_response_unmarked _ Hnone).
Qed.

End Splitter.

(** The example of the specification: a response with one marker, and one with
    none. *)
Lemma reason_splits_at_marker_witness :
  _reason [] []
    (MiniPython.agent [py "Think X" ++ NL ++ py "ACTION:" ++ NL ++ py "print(1)"] 3)
  = (Return (py "Think X", Some (py "print(1)")),
     log (EvCompletion []) (MiniPython.agent [] 3))
  /\ _reason [] [] (MiniPython.agent [py "Just thinking"] 3)
    = (Return (py "Just thinking", None),
       log (EvCompletion []) (MiniPython.agent [] 3)).
Proof.
  split.
  - refine (proj1 (reason_splits_at_marker [] []
      (MiniPython.agent [py "Think X" ++ NL ++ py "ACTION:" ++ NL ++ py "print(1)"] 3)
      _ _ eq_refl) (py "Think X" ++ NL) (NL ++ py "print(1)") (NL ++ py "print(1)") _ _).
    + by apply first_occurrence_by_find.
    + left. split; [by apply str_find_None | done].
  - refine (proj2 (reason_splits_at_marker [] []
      (MiniPython.agent [py "Just thinking"] 3) _ _ eq_refl) _).
    by apply str_find_None.
Defined.

(** C2 as stated fails on a response with two markers: the code is the text up
    to the second marker, not all the text after the first. *)
Lemma reason_second_marker_counterexample :
  first_occurrence (py "plan ACTION: a = 1 ACTION: b = 2") (py "ACTION:")
    (py "plan ") (py " a = 1 ACTION: b = 2")
  /\ fst (_reason [] [] (MiniPython.agent [py "plan ACTION: a = 1 ACTION: b = 2"] 3))
     = Return (py "plan", Some (py "a = 1"))
  /\ str_strip (py " a = 1 ACTION: b = 2") = py "a = 1 ACTION: b = 2"
  /\ py "a = 1" <> py "a = 1 ACTION: b = 2".
Proof.
  split; [by apply first_occurrence_by_find|].
  split; [by vm_compute|]. split; [by vm_compute | done].
Qed.

(** ** The code executor *)

Lemma events_between_app {P : Python} {L : LLMClient (exn P)}
    (w w' : World P L) (evs : list (event P)) :
  trace w' = trace w ++ evs -> events_between w w' = evs.
Proof. unfold events_between. intros ->. by rewrite drop_app_length. Qed.

Lemma fresh_buffer_contents (bs : list buffer) (f : buffer -> buffer) :
  alter f (length bs) (bs ++ [empty_buffer]) !! length bs = Some (f empty_buffer).
Proof.
  rewrite list_lookup_alter_eq, lookup_app_r by lia. by rewrite Nat.sub_diag.
Qed.

Section Executor.
Context {P : Python} {L : LLMClient (exn P)}.

(** The events one call of [_act] adds to the record. *)
Lemma _act_trace (code : str) (w : World P L) :
  trace (snd (_act code w)) =
    trace w
    ++ [EvStdout (StringIO (length (buffers w))); EvParse code]
    ++ match ast_parse P code with
       | None => [EvExec code ∅ (local_vars w)]
       | Some _ => []
       end
    ++ [EvStdout (sys_stdout w)].
Proof.
  act_unfold. act_cases; rewrite ?fresh_buffer_contents; act_cases;
    by rewrite <- !app_assoc.
Qed.

(** The scope one call of [_act] leaves. *)
Lemma _act_local_vars (code : str) (w : World P L) :
  local_vars (snd (_act code w)) =
    match ast_parse P code with
    | None => locals_after (exec P code ∅ (local_vars w))
    | Some _ => local_vars w
    end.
Proof.
  act_unfold. act_cases; rewrite ?fresh_buffer_contents; act_cases; done.
Qed.

(** What [_act] returns once the code has parsed and run without raising:
    what the capture buffer holds, the sentinel for an empty buffer, and the
    error of reading a closed one. *)
Lemma _act_captured (code : str) (w : World P L) :
  ast_parse P code = None ->
  raised (exec P code ∅ (local_vars w)) = None ->
  fst (_act code w) =
    if closed (on_stdout (exec P code ∅ (local_vars w)) empty_buffer)
    then Return (py "Error executing code: I/O operation on closed file")
    else
      Return (match contents (on_stdout (exec P code ∅ (local_vars w)) empty_buffer) with
              | [] => py "Code executed successfully with no output"
              | _ :: _ => contents (on_stdout (exec P code ∅ (local_vars w)) empty_buffer)
              end).
Proof.
  intros Hparse Hraised. act_unfold. rewrite Hparse; cbn. rewrite Hraised.
  act_cases; rewrite ?fresh_buffer_contents; act_cases; done.
Qed.

(** What [_act] returns when the code, or its validation, raises [e]. *)
Lemma _act_raised (code : str) (w : World P L) (e : exn P) :
  failure code w = Some e ->
  fst (_act code w) =
    if isinstance_Exception P e then
      match exn_str P e with
      | inr message => Return (py "Error executing code: " ++ message)
      | inl e' => Raise e'
      end
    else Raise e.
Proof.
  unfold failure. act_unfold. destruct (ast_parse P code) as [e0|]; cbn.
  - intros [= ->]. act_cases; done.
  - intros ->. act_cases; done.
Qed.


(** X1. On every way out of [_act], also when an exception goes on to the
    caller, [sys.stdout] is bound again to what it was bound to before. *)
Lemma act_restores_stdout (code : str) (w : World P L) :
  sys_stdout (snd (_act code w)) = sys_stdout w.
Proof.
  act_unfold. act_cases; rewrite ?fresh_buffer_contents; act_cases; done.
Qed.

(** C5, as the code has it. [_act] first binds [sys.stdout] to the capture
    buffer, then validates the syntax, then (only when validation passed) runs
    the code, and last restores [sys.stdout]: validation comes after the
    redirection and strictly before any execution. *)
Theorem act_event_order (code : str) (w : World P L) :
  events_of (_act code) w =
    [EvStdout (StringIO (length (buffers w))); EvParse code]
    ++ match ast_parse P code with
       | None => [EvExec code ∅ (local_vars w)]
       | Some _ => []
       end
    ++ [EvStdout (sys_stdout w)].
Proof. unfold events_of. apply events_between_app, _act_trace. Qed.

(** C6. When [ast.parse] rejects the code with a syntax error (an instance of
    [Exception] whose [str()] is [message]), [_act] returns a string that
    starts with "Error executing code:", the code is never executed and
    [self.local_vars] is as it was. *)
Theorem act_syntax_error (code : str) (w : World P L) (e : exn P) (message : str) :
  ast_parse P code = Some e ->
  isinstance_Exception P e = true ->
  exn_str P e = inr message ->
  fst (_act code w) = Return (py "Error executing code: " ++ message)
  /\ str_startswith (py "Error executing code: " ++ message)
       (py "Error executing code:") = true
  /\ local_vars (snd (_act code w)) = local_vars w
  /\ filter (fun ev => is_exec ev = true) (events_of (_act code) w) = [].
Proof.
  intros Hparse Hclass Hstr. split; [|split; [|split]].
  - act_unfold. by rewrite Hparse, Hclass, Hstr.
  - apply str_startswith_spec. by exists (py " " ++ message).
  - act_unfold. by rewrite Hparse, Hclass, Hstr.
  - unfold events_of. rewrite (events_between_app _ _ _ (_act_trace code w)).
    by rewrite Hparse.
Qed.


(** C10, as the code has it. When the code, whatever it wrote to standard
    output before, raises an instance of [Exception] whose [str()] is
    [message], [_act] returns only "Error executing code: message": nothing
    of the capture buffer is in the result. *)
Theorem act_error_drops_output (code : str) (w : World P L)
    (e : exn P) (message : str) :
  ast_parse P code = None ->
  raised (exec P code ∅ (local_vars w)) = Some e ->
  isinstance_Exception P e = true ->
  exn_str P e = inr message ->
  fst (_act code w) = Return (py "Error executing code: " ++ message).
Proof.
  intros Hparse Hraised Hclass Hstr.
  rewrite (_act_raised code w e) by (unfold failure; by rewrite Hparse).
  by rewrite Hclass, Hstr.
Qed.

End Executor.


(** C5 as stated fails: the redirection of [sys.stdout] is the first thing
    [_act] does, before the code is parsed. *)
Lemma act_redirects_first_counterexample :
  events_of (_act (py "x = 1")) (MiniPython.agent [] 3)
  = [EvStdout (StringIO 0); EvParse (py "x = 1");
     EvExec (py "x = 1") ∅ ∅; EvStdout Terminal].
Proof. reflexivity. Qed.

(** A source [ast.parse] rejects. *)
Lemma act_syntax_error_witness :
  fst (_act (py "x = = 1") (MiniPython.agent [] 3))
  = Return (py "Error executing code: invalid syntax (<unknown>, line 1)")
  /\ str_startswith (py "Error executing code: invalid syntax (<unknown>, line 1)")
       (py "Error executing code:") = true
  /\ local_vars (snd (_act (py "x = = 1") (MiniPython.agent [] 3))) = ∅
  /\ filter (fun ev => is_exec ev = true)
       (events_of (_act (py "x = = 1")) (MiniPython.agent [] 3)) = [].
Proof.
  exact (act_syntax_error (py "x = = 1") (MiniPython.agent [] 3)
           (MiniPython.syntax_error (py "<unknown>") 1)
           (py "invalid syntax (<unknown>, line 1)") eq_refl eq_refl eq_refl).
Defined.



(** A source that prints and then reads an unbound name. *)
Lemma act_error_drops_output_witness :
  contents (on_stdout (exec MiniPython.runtime
                         (py "print(1)" ++ NL ++ py "print(y)") ∅ ∅) empty_buffer)
  = py "1" ++ NL
  /\ fst (_act (py "print(1)" ++ NL ++ py "print(y)") (MiniPython.agent [] 3))
     = Return (py "Error executing code: name 'y' is not defined").
Proof.
  split; [reflexivity|].
  exact (act_error_drops_output (py "print(1)" ++ NL ++ py "print(y)")
           (MiniPython.agent [] 3)
           (MiniPython.name_error (py "y")) (py "name 'y' is not defined")
           eq_refl eq_refl eq_refl eq_refl).
Defined.

(** C10 as stated fails when the exception is outside the [Exception]
    hierarchy: the code writes, raises [KeyboardInterrupt], and [_act] returns
    no string at all. *)
Lemma act_error_drops_output_counterexample :
  contents (on_stdout (exec MiniPython.runtime
                         (py "print(1)" ++ NL ++ py "raise KeyboardInterrupt") ∅ ∅)
              empty_buffer)
  = py "1" ++ NL
  /\ fst (_act (py "print(1)" ++ NL ++ py "raise KeyboardInterrupt")
            (MiniPython.agent [] 3))
     = Raise {| MiniPython.exc_type := MiniPython.KeyboardInterrupt;
                MiniPython.exc_message := [] |}.
Proof. split; reflexivity. Qed.

(** ** The loop *)

Lemma model_calls_app {P : Python} (evs1 evs2 : list (event P)) :
  model_calls (evs1 ++ evs2) = model_calls evs1 + model_calls evs2.
Proof. unfold model_calls. by rewrite filter_app, length_app. Qed.

Lemma model_calls_completion {P : Python} (context : str) (evs : list (event P)) :
  model_calls (EvCompletion context :: evs) = S (model_calls evs).
Proof. unfold model_calls. by rewrite filter_cons_True. Qed.

Lemma scope_threaded_app {P : Python} (evs1 evs2 : list (event P))
    (scope middle final : gmap str (value P)) :
  scope_threaded scope evs1 middle -> scope_threaded middle evs2 final ->
  scope_threaded scope (evs1 ++ evs2) final.
Proof.
  revert scope. induction evs1 as [|ev evs1 IH]; intros scope; cbn.
  - by intros ->.
  - destruct ev; cbn; eauto. intros (-> & -> & H) H2. eauto.
Qed.

Lemma fold_left_snoc_map {A B} (f : A -> B) (l : list A) (acc : list B) :
  fold_left (fun acc x => acc ++ [f x]) l acc = acc ++ map f l.
Proof.
  revert acc. induction l as [|x l IH]; intros acc; cbn.
  - by rewrite app_nil_r.
  - by rewrite IH, <- app_assoc.
Qed.

Lemma str_join_snoc (sep : str) (parts : list str) (p : str) :
  str_join sep (parts ++ [p]) =
    match parts with
    | [] => p
    | _ :: _ => str_join sep parts ++ sep ++ p
    end.
Proof.
  induction parts as [|q parts IH]; [done|].
  cbn [app str_join]. destruct parts as [|r parts]; [done|].
  cbn [app] in *. rewrite IH. by rewrite <- !app_assoc.
Qed.

Section Loop.
Context {P : Python} {L : LLMClient (exn P)}.

(** What one call of [_act] does to the record of events and to the scope. *)
Lemma _act_effect (code : str) (w : World P L) :
  exists evs,
    trace (snd (_act code w)) = trace w ++ evs
    /\ model_calls evs = 0
    /\ scope_threaded (local_vars w) evs (local_vars (snd (_act code w))).
Proof.
  eexists. split; [apply _act_trace|]. rewrite _act_local_vars.
  by destruct (ast_parse P code).
Qed.

Lemma _format_history_eq (w : World P L) :
  _format_history w = (Return (str_join NL (map block (history w))), w).
Proof.
  unfold _format_history, bind, gets, ret. f_equal. f_equal.
  by rewrite fold_left_snoc_map.
Qed.

(** One round of the loop, spelled out. *)
Lemma run_round_eq (task prompt : str) (w : World P L) :
  run_round task prompt w =
    let context := prompt ++ NL ++ NL ++ str_join NL (map block (history w)) in
    match get_completion L (llm_client w) context with
    | (inl e, c) => (Raise e, log (EvCompletion context) (with_llm_client c w))
    | (inr response, c) =>
        let w1 := log (EvCompletion context) (with_llm_client c w) in
        match split_response P response with
        | Raise e => (Raise e, w1)
        | Return (thought, code) =>
            if str_in (py "FINAL ANSWER:") thought then
              (Return (Some thought),
               with_history
                 (history w ++ [{| type := FINAL_ANSWER; content := thought |}]) w1)
            else
              let w2 :=
                with_history
                  (history w ++ [{| type := THOUGHT; content := thought |}]) w1 in
              match code with
              | None => (Return None, w2)
              | Some code =>
                  let w3 :=
                    with_history
                      (history w2 ++ [{| type := ACTION; content := code |}]) w2 in
                  match _act code w3 with
                  | (Return observation, w4) =>
                      (Return None,
                       with_history
                         (history w4
                          ++ [{| type := OBSERVATION; content := observation |}]) w4)
                  | (Raise e, w4) => (Raise e, w4)
                  end
              end
        end
    end.
Proof.
  unfold run_round. unfold bind at 1. rewrite _format_history_eq.
  unfold bind at 1. rewrite _reason_eq. cbv zeta.
  destruct (get_completion L (llm_client w) _) as [[e|response] c]; [done|].
  destruct (split_response P response) as [[thought code]|e]; cbn [fst snd]; [|done].
  destruct (str_in (py "FINAL ANSWER:") thought); [done|].
  destruct code as [code|]; [|done].
  unfold bind at 1. unfold _add_step at 1, modify at 1.
  unfold bind at 1. unfold _add_step at 1, modify at 1.
  reflexivity.
Qed.

(** One round makes exactly one model call, whatever its outcome, and hands
    the scope from one [exec] to the next. *)
Lemma run_round_effect (task prompt : str) (w : World P L) :
  exists evs,
    trace (snd (run_round task prompt w)) = trace w ++ evs
    /\ model_calls evs = 1
    /\ scope_threaded (local_vars w) evs (local_vars (snd (run_round task prompt w))).
Proof.
  rewrite run_round_eq. cbv zeta.
  destruct (get_completion L (llm_client w) _) as [[e|response] c].
  { by eexists [_]. }
  destruct (split_response P response) as [[thought code]|e]; [|by eexists [_]].
  destruct (str_in (py "FINAL ANSWER:") thought); [by eexists [_]|].
  destruct code as [code|]; [|by eexists [_]].
  match goal with |- context [_act code ?w3] =>
    destruct (_act_effect code w3) as (evs & Ht & Hc & Hs);
    destruct (_act code w3) as [[obs|e] w4] end;
    cbn in Ht, Hs |- *; eexists (_ :: evs);
    (split; [rewrite Ht, <- app_assoc; reflexivity|]);
    (split; [by rewrite model_calls_completion, Hc | done]).
Qed.

Lemma run_loop_effect (n : nat) (task prompt : str) (w : World P L) :
  exists evs,
    trace (snd (run_loop n task prompt w)) = trace w ++ evs
    /\ model_calls evs <= n
    /\ scope_threaded (local_vars w) evs (local_vars (snd (run_loop n task prompt w))).
Proof.
  revert w. induction n as [|n IH]; intros w; cbn [run_loop].
  - exists []. by rewrite app_nil_r.
  - unfold bind.
    destruct (run_round_effect task prompt w) as (evs1 & Ht1 & Hc1 & Hs1).
    destruct (run_round task prompt w) as [[[answer|]|e] w1]; cbn [fst snd] in *.
    + exists evs1. split; [done|]. split; [lia | done].
    + destruct (IH w1) as (evs2 & Ht2 & Hc2 & Hs2). exists (evs1 ++ evs2).
      split; [by rewrite Ht2, Ht1, <- app_assoc|].
      split; [rewrite model_calls_app; lia|]. by eapply scope_threaded_app.
    + exists evs1. split; [done|]. split; [lia | done].
Qed.

Lemma run_round_keeps_going (task prompt : str) (w : World P L) :
  keeps_going P L -> fst (run_round task prompt w) = Return None.
Proof.
  intros Hgo. rewrite run_round_eq. cbv zeta.
  destruct (Hgo (llm_client w) (prompt ++ NL ++ NL ++ str_join NL (map block (history w))))
    as (response & c & thought & code & -> & -> & Hfinal & Hsafe).
  rewrite Hfinal. destruct code as [code|]; [|done].
  match goal with |- context [_act code ?w3] =>
    destruct (Hsafe code eq_refl w3) as [obs Hobs];
    destruct (_act code w3) as [r w4] end.
  cbn in Hobs. by subst r.
Qed.

Lemma run_loop_keeps_going (n : nat) (task prompt : str) (w : World P L) :
  keeps_going P L ->
  exists evs,
    fst (run_loop n task prompt w)
      = Return (py "Maximum steps reached without finding solution")
    /\ trace (snd (run_loop n task prompt w)) = trace w ++ evs
    /\ model_calls evs = n.
Proof.
  intros Hgo. revert w. induction n as [|n IH]; intros w; cbn [run_loop].
  - exists []. by rewrite app_nil_r.
  - unfold bind.
    destruct (run_round_effect task prompt w) as (evs1 & Ht1 & Hc1 & _).
    pose proof (run_round_keeps_going task prompt w Hgo) as Hr.
    destruct (run_round task prompt w) as [r w1]; cbn [fst snd] in *. subst r.
    destruct (IH w1) as (evs2 & Hres & Ht2 & Hc2). exists (evs1 ++ evs2).
    split; [done|]. split; [by rewrite Ht2, Ht1, <- app_assoc|].
    rewrite model_calls_app. lia.
Qed.

Lemma run_eq (task : str) (w : World P L) :
  run task w = run_loop (Z.to_nat (max_steps w)) task (run_prompt task) w.
Proof. done. Qed.

(** C3. In a round where the model's response parses to a thought that
    contains FINAL ANSWER:, the loop appends one FINAL_ANSWER step holding
    that thought and returns the thought; the round's model call is the only
    event (no further model call, no code run, even when the response had a
    code part), and the scope is untouched. *)
Theorem run_stops_at_final_answer (n : nat) (task prompt : str) (w : World P L)
    (response : str) (c : client L) (thought : str) (code : option str) :
  let context := prompt ++ NL ++ NL ++ str_join NL (map block (history w)) in
  let w' :=
    with_history (history w ++ [{| type := FINAL_ANSWER; content := thought |}])
      (log (EvCompletion context) (with_llm_client c w)) in
  get_completion L (llm_client w) context = (inr response, c) ->
  split_response P response = Return (thought, code) ->
  str_in (py "FINAL ANSWER:") thought = true ->
  run_loop (S n) task prompt w = (Return thought, w')
  /\ history w' = history w ++ [{| type := FINAL_ANSWER; content := thought |}]
  /\ events_between w w' = [EvCompletion context]
  /\ local_vars w' = local_vars w.
Proof.
  intros context w' Hllm Hsplit Hfinal. split; [|split; [done|split; [|done]]].
  - cbn [run_loop]. unfold bind at 1. rewrite run_round_eq. cbv zeta.
    fold context. by rewrite Hllm, Hsplit, Hfinal.
  - by apply events_between_app.
Qed.

(** C4, as the code has it. In every run the loop makes at most [max_steps]
    model calls. When the client keeps going (its completions never hold the
    final-answer marker in the thought, and their code never makes [_act]
    raise), [run] makes exactly [max_steps] model calls, one per round, and
    returns "Maximum steps reached without finding solution". (A [max_steps]
    below zero counts as zero.) *)
Theorem run_exhausts_budget (task : str) (w : World P L) :
  model_calls (events_of (run task) w) <= Z.to_nat (max_steps w)
  /\ (keeps_going P L ->
      fst (run task w) = Return (py "Maximum steps reached without finding solution")
      /\ model_calls (events_of (run task) w) = Z.to_nat (max_steps w)).
Proof.
  unfold events_of. rewrite run_eq. split.
  - destruct (run_loop_effect (Z.to_nat (max_steps w)) task (run_prompt task) w)
      as (evs & Ht & Hc & _).
    by rewrite (events_between_app _ _ _ Ht).
  - intros Hgo.
    destruct (run_loop_keeps_going (Z.to_nat (max_steps w)) task (run_prompt task) w Hgo)
      as (evs & Hres & Ht & Hc).
    by rewrite (events_between_app _ _ _ Ht).
Qed.


(** C9. [_format_history] returns, without touching the state, one block
    "{kind}:\n{text}\n" per step of the history, in the order the steps were
    appended, with a new line between consecutive blocks (which, after the
    new line a block ends with, leaves a blank line between them). *)
Theorem format_history_blocks (w : World P L) :
  _format_history w = (Return (str_join NL (map block (history w))), w)
  /\ (forall (step_type : StepType) (content : str),
       history (snd (_add_step step_type content w))
       = history w ++ [{| type := step_type; content := content |}])
  /\ (forall (steps : list ReActStep) (step : ReActStep),
       str_join NL (map block (steps ++ [step])) =
         match steps with
         | [] => block step
         | _ :: _ => str_join NL (map block steps) ++ NL ++ block step
         end)
  /\ fst (_format_history
            (with_history [ {| type := THOUGHT; content := py "a" |};
                            {| type := ACTION; content := py "b" |};
                            {| type := OBSERVATION; content := py "c" |} ] w))
     = Return (py "THOUGHT:" ++ NL ++ py "a" ++ NL ++ NL
               ++ py "ACTION:" ++ NL ++ py "b" ++ NL ++ NL
               ++ py "OBSERVATION:" ++ NL ++ py "c" ++ NL).
Proof.
  split; [apply _format_history_eq|]. split; [done|]. split.
  - intros steps step. rewrite map_app. cbn [map].
    rewrite str_join_snoc. by destruct steps.
  - by rewrite _format_history_eq.
Qed.

End Loop.

(** ** The scope on the runtime of the fragment *)




Section FragmentScope.
Context {L : LLMClient MiniPython.exception}.
Implicit Types w : World MiniPython.runtime L.







End FragmentScope.






(** A response with both markers: the final answer wins, the code is not run. *)
Lemma run_stops_at_final_answer_witness :
  let response :=
    py "FINAL ANSWER: 42" ++ NL ++ py "ACTION:" ++ NL ++ py "print(1)" in
  let w := MiniPython.agent [response] 3 in
  let context := run_prompt (py "add") ++ NL ++ NL in
  let w' :=
    with_history [{| type := FINAL_ANSWER; content := py "FINAL ANSWER: 42" |}]
      (log (EvCompletion context) (MiniPython.agent [] 3)) in
  run (py "add") w = (Return (py "FINAL ANSWER: 42"), w')
  /\ history w' = [{| type := FINAL_ANSWER; content := py "FINAL ANSWER: 42" |}]
  /\ events_between w w' = [EvCompletion context]
  /\ local_vars w' = ∅.
Proof.
  exact (run_stops_at_final_answer 2 (py "add") (run_prompt (py "add"))
           (MiniPython.agent
              [py "FINAL ANSWER: 42" ++ NL ++ py "ACTION:" ++ NL ++ py "print(1)"] 3)
           (py "FINAL ANSWER: 42" ++ NL ++ py "ACTION:" ++ NL ++ py "print(1)")
           [] (py "FINAL ANSWER: 42") (Some (py "print(1)"))
           eq_refl eq_refl eq_refl).
Defined.

Lemma act_returns {P : Python} {L : LLMClient (exn P)} (code : str) (w : World P L) :
  ast_parse P code = None ->
  raised (exec P code ∅ (local_vars w)) = None ->
  exists observation, fst (_act code w) = Return observation.
Proof.
  intros Hparse Hraised. rewrite (_act_captured _ _ Hparse Hraised).
  destruct (closed _); by eexists.
Qed.

(** A client that always answers with a thought and the code [x = 1] keeps
    going. *)
Lemma constant_assignment_keeps_going :
  keeps_going MiniPython.runtime
    (MiniPython.constant (py "count" ++ NL ++ py "ACTION:" ++ NL ++ py "x = 1")).
Proof.
  intros c context.
  exists (py "count" ++ NL ++ py "ACTION:" ++ NL ++ py "x = 1"), c,
    (py "count"), (Some (py "x = 1")).
  split; [done|]. split; [done|]. split; [done|].
  intros source [= <-] w. by apply act_returns.
Qed.

(** Two rounds, each running the code of the completion. *)
Lemma run_exhausts_budget_witness :
  fst (run (py "add")
         (MiniPython.agent_hearing
            (py "count" ++ NL ++ py "ACTION:" ++ NL ++ py "x = 1") 2))
  = Return (py "Maximum steps reached without finding solution")
  /\ model_calls
       (events_of (run (py "add"))
          (MiniPython.agent_hearing
             (py "count" ++ NL ++ py "ACTION:" ++ NL ++ py "x = 1") 2))
     = 2.
Proof.
  exact (proj2 (run_exhausts_budget (py "add")
                  (MiniPython.agent_hearing
                     (py "count" ++ NL ++ py "ACTION:" ++ NL ++ py "x = 1") 2))
           constant_assignment_keeps_going).
Defined.

(** C4 as stated fails: the completions never hold the final-answer marker,
    yet their code raises [KeyboardInterrupt], which [_act] lets through: the
    run ends in the first of its three rounds, by that exception. *)
Lemma run_interrupted_counterexample :
  let response :=
    py "stop" ++ NL ++ py "ACTION:" ++ NL ++ py "raise KeyboardInterrupt" in
  let w := MiniPython.agent_hearing response 3 in
  split_response MiniPython.runtime response
  = Return (py "stop", Some (py "raise KeyboardInterrupt"))
  /\ str_in (py "FINAL ANSWER:") (py "stop") = false
  /\ max_steps w = 3%Z
  /\ fst (run (py "add") w)
     = Raise {| MiniPython.exc_type := MiniPython.KeyboardInterrupt;
                MiniPython.exc_message := [] |}
  /\ model_calls (events_of (run (py "add")) w) = 1.
Proof. repeat split; reflexivity. Qed.

(** ** Checks of the string model against Python *)

Example str_methods_sample :
  str_split (py "a::b::c") (py "::") = [py "a"; py "b"; py "c"]
  /\ str_split (py "abc") (py "::") = [py "abc"]
  /\ str_split (py "::") (py "::") = [[]; []]
  /\ str_strip (py "  a b  " ++ NL) = py "a b"
  /\ str_join (py ", ") [py "a"; py "b"] = py "a, b"
  /\ str_in (py "b:") (py "a::b::c") = true
  /\ str_in (py "x") (py "a::b::c") = false.
Proof. repeat split; reflexivity. Qed.

(** ** Further properties of the executor *)

Section ExecutorFrame.
Context {P : Python} {L : LLMClient (exn P)}.

(** What one call of [_act] leaves as it was. *)
Lemma _act_frame (code : str) (w : World P L) :
  llm_client (snd (_act code w)) = llm_client w
  /\ max_steps (snd (_act code w)) = max_steps w
  /\ history (snd (_act code w)) = history w
  /\ sys_stdout (snd (_act code w)) = sys_stdout w.
Proof.
  act_unfold. act_cases; rewrite ?fresh_buffer_contents; act_cases; done.
Qed.

(** X2. Whatever the code does and however the call ends, [_act] leaves the
    attributes of the agent other than its scope alone: the history, the
    client and the step budget are after the call what they were before. *)
Theorem act_leaves_history_and_client (code : str) (w : World P L) :
  history (snd (_act code w)) = history w
  /\ llm_client (snd (_act code w)) = llm_client w
  /\ max_steps (snd (_act code w)) = max_steps w.
Proof.
  destruct (_act_frame code w) as (Hc & Hm & Hh & _). auto.
Qed.

(** X3. Nothing is rolled back when the code fails at run time: once the code
    has passed [ast.parse], [self.local_vars] is after the call what [exec]
    left, whether [exec] raised or not. *)
Theorem act_keeps_partial_effects (code : str) (w : World P L) :
  ast_parse P code = None ->
  local_vars (snd (_act code w)) = locals_after (exec P code ∅ (local_vars w)).
Proof.
  intros Hparse. by rewrite _act_local_vars, Hparse.
Qed.

(** One call of [_act] runs at most one [exec] and asks the model nothing. *)
Lemma _act_calls (code : str) (w : World P L) (prompt : str) :
  exists evs,
    trace (snd (_act code w)) = trace w ++ evs
    /\ model_calls evs = 0
    /\ exec_calls evs <= 1
    /\ forallb (asks_under prompt) evs = true.
Proof.
  eexists. split; [apply _act_trace|].
  destruct (ast_parse P code); (split; [done|]); (split; [|done]).
  - change (0 <= 1). lia.
  - change (1 <= 1). lia.
Qed.

End ExecutorFrame.

(** The assignment made before the failing statement stays. *)
Lemma act_keeps_partial_effects_witness :
  fst (_act (py "x = 1" ++ NL ++ py "print(y)") (MiniPython.agent [] 3))
  = Return (py "Error executing code: name 'y' is not defined")
  /\ local_vars (snd (_act (py "x = 1" ++ NL ++ py "print(y)") (MiniPython.agent [] 3)))
     = <[py "x" := 1%Z]> ∅.
Proof.
  split; [reflexivity|].
  exact (act_keeps_partial_effects (py "x = 1" ++ NL ++ py "print(y)")
           (MiniPython.agent [] 3) eq_refl).
Defined.

(** ** Further properties of the response splitter *)

Lemma first_occurrence_before (s sub pre post : str) :
  sub <> [] -> first_occurrence s sub pre post -> ~ occurs sub pre.
Proof.
  intros Hsub [Hs Hmin] (a & b & Hpre).
  assert (s = a ++ sub ++ (b ++ sub ++ post)) as Hs'.
  { rewrite Hs, Hpre. by rewrite <- !app_assoc. }
  specialize (Hmin _ _ Hs'). rewrite Hpre, !length_app in Hmin.
  destruct sub; [done | simpl in Hmin; lia].
Qed.

Lemma occurs_str_strip (sub s : str) : occurs sub (str_strip s) -> occurs sub s.
Proof.
  intros (a & b & Hstrip).
  destruct (str_strip_trimmed s) as (left & right & Hs & _).
  exists (left ++ a), (b ++ right). rewrite Hs, Hstrip. by rewrite <- !app_assoc.
Qed.

Lemma up_to_next_free (sub s part : str) :
  sub <> [] -> up_to_next sub s part -> ~ occurs sub part.
Proof.
  intros Hsub [[Hnone ->] | [rest Hfirst]]; [done|].
  by eapply first_occurrence_before.
Qed.

Section SplitterFacts.
Context {P : Python} {L : LLMClient (exn P)}.

(** Where the parts of a response with a code part come from. *)
Lemma split_response_code_inv (response thought code : str) :
  split_response P response = Return (thought, Some code) ->
  exists pre post part,
    first_occurrence response (py "ACTION:") pre post
    /\ up_to_next (py "ACTION:") post part
    /\ thought = str_strip pre /\ code = str_strip part.
Proof.
  intros Hsplit.
  destruct (str_find response (py "ACTION:")) as [i|] eqn:F.
  - pose proof (str_find_first _ _ _ F) as Hfirst.
    set (pre := take i response) in *.
    set (post := drop (i + length (py "ACTION:")) response) in *.
    assert (exists part, up_to_next (py "ACTION:") post part) as [part Hnext].
    { destruct (str_find post (py "ACTION:")) as [j|] eqn:G.
      - eexists. right. eexists. by apply str_find_first.
      - exists post. left. split; [by apply str_find_None | done]. }
    rewrite (split_response_marked _ _ _ _ Hfirst Hnext) in Hsplit.
    injection Hsplit as <- <-. by exists pre, post, part.
  - rewrite split_response_unmarked in Hsplit by (by apply str_find_None). done.
Qed.

(** X4. The subscripts [0] and [1] of [_reason] never go out of range, so the
    only exception [_reason] can raise is the one the model call raised;
    whenever the model answers, [_reason] returns a thought and a code part. *)
Theorem reason_raises_only_model_errors (task context : str) (w : World P L) :
  match fst (get_completion L (llm_client w) context) with
  | inl e => fst (_reason task context w) = Raise e
  | inr response =>
      exists thought code, fst (_reason task context w) = Return (thought, code)
  end.
Proof.
  rewrite _reason_eq.
  destruct (get_completion L (llm_client w) context) as [[e|response] c]; [done|].
  cbn. apply split_response_returns.
Qed.

(** X5. When [_reason] gives a code part, neither the thought nor the code
    holds the marker ACTION: any more: the code handed to [_act] never
    contains it. *)
Theorem split_parts_hold_no_marker (response thought code : str) :
  split_response P response = Return (thought, Some code) ->
  ~ occurs (py "ACTION:") thought /\ ~ occurs (py "ACTION:") code.
Proof.
  intros Hsplit.
  destruct (split_response_code_inv _ _ _ Hsplit)
    as (pre & post & part & Hfirst & Hnext & -> & ->).
  split; intros H%occurs_str_strip.
  - by apply (first_occurrence_before _ _ _ _ ACTION_marker_nonempty Hfirst).
  - by apply (up_to_next_free _ _ _ ACTION_marker_nonempty Hnext).
Qed.

(** X6. When [_reason] gives a code part, the thought and the code neither
    start nor end with a white-space character. *)
Theorem split_parts_are_trimmed (response thought code : str) :
  split_response P response = Return (thought, Some code) ->
  (forall c, head thought = Some c \/ last thought = Some c -> isspace c = false)
  /\ (forall c, head code = Some c \/ last code = Some c -> isspace c = false).
Proof.
  intros Hsplit.
  destruct (split_response_code_inv _ _ _ Hsplit)
    as (pre & post & part & _ & _ & -> & ->).
  destruct (str_strip_trimmed pre) as (l1 & r1 & _ & _ & _ & Hh1 & Hl1).
  destruct (str_strip_trimmed part) as (l2 & r2 & _ & _ & _ & Hh2 & Hl2).
  split; intros c [H|H]; eauto.
Qed.

End SplitterFacts.

(** The example response of the specification, with blanks around the
    parts. *)
Lemma split_parts_hold_no_marker_witness :
  ~ occurs (py "ACTION:") (py "Think X") /\ ~ occurs (py "ACTION:") (py "print(1)").
Proof.
  exact (split_parts_hold_no_marker (P := MiniPython.runtime)
           (py " Think X" ++ NL ++ py "ACTION:" ++ NL ++ py "print(1) ")
           (py "Think X") (py "print(1)") eq_refl).
Defined.

Lemma split_parts_are_trimmed_witness :
  (forall c, head (py "Think X") = Some c \/ last (py "Think X") = Some c ->
             isspace c = false)
  /\ (forall c, head (py "print(1)") = Some c \/ last (py "print(1)") = Some c ->
               isspace c = false).
Proof.
  exact (split_parts_are_trimmed (P := MiniPython.runtime)
           (py " Think X" ++ NL ++ py "ACTION:" ++ NL ++ py "print(1) ")
           (py "Think X") (py "print(1)") eq_refl).
Defined.

(** ** Further properties of the loop *)

Lemma round_steps_thought (kinds : list StepType) :
  round_steps kinds = true -> round_steps (THOUGHT :: kinds) = true.
Proof. by destruct kinds as [|[] kinds]. Qed.

Lemma exec_calls_app {P : Python} (evs1 evs2 : list (event P)) :
  exec_calls (evs1 ++ evs2) = exec_calls evs1 + exec_calls evs2.
Proof. unfold exec_calls. by rewrite filter_app, length_app. Qed.

Lemma exec_calls_cons {P : Python} (e : event P) (evs : list (event P)) :
  exec_calls (e :: evs) = (if is_exec e then 1 else 0) + exec_calls evs.
Proof. by destruct e. Qed.

Lemma model_calls_cons {P : Python} (e : event P) (evs : list (event P)) :
  model_calls (e :: evs) = (if is_completion e then 1 else 0) + model_calls evs.
Proof. by destruct e. Qed.

Lemma one_exec_per_call_pending {P : Python} (evs : list (event P)) :
  one_exec_per_call false evs = true -> one_exec_per_call true evs = true.
Proof. induction evs as [|[] evs IH]; cbn; auto. done. Qed.

(** Where every [exec] follows a model call of its own, the [exec] calls so
    far never exceed the model calls so far. *)
Lemma one_exec_per_call_prefix {P : Python} (pending : bool) (evs : list (event P))
    (k : nat) :
  one_exec_per_call pending evs = true ->
  exec_calls (take k evs)
  <= model_calls (take k evs) + (if pending then 1 else 0).
Proof.
  revert pending k. induction evs as [|e evs IH]; intros pending k.
  - intros _. rewrite take_nil. change (0 <= 0 + (if pending then 1 else 0)). lia.
  - destruct k as [|k]; [intros _; change (0 <= 0 + (if pending then 1 else 0)); lia|].
    cbn [take]. rewrite exec_calls_cons, model_calls_cons.
    destruct e; cbn [one_exec_per_call is_exec is_completion].
    + intros H. specialize (IH true k H). destruct pending; cbv iota in *; lia.
    + intros H. by specialize (IH pending k H).
    + intros H. by specialize (IH pending k H).
    + intros [-> H]%andb_true_iff. specialize (IH false k H). cbv iota in *. lia.
Qed.

Section LoopFacts.
Context {P : Python} {L : LLMClient (exn P)}.

(** The steps one round appends, by the way the round ends. *)
Lemma run_round_steps (task prompt : str) (w : World P L) :
  exists new,
    history (snd (run_round task prompt w)) = history w ++ new
    /\ match fst (run_round task prompt w) with
       | Return (Some answer) =>
           map type new = [FINAL_ANSWER]
           /\ str_in (py "FINAL ANSWER:") answer = true
       | Return None =>
           map type new = [THOUGHT] \/ map type new = [THOUGHT; ACTION; OBSERVATION]
       | Raise _ => new = [] \/ map type new = [THOUGHT; ACTION]
       end.
Proof.
  rewrite run_round_eq. cbv zeta.
  destruct (get_completion L (llm_client w) _) as [[e|response] c].
  { exists []. cbn. rewrite app_nil_r. auto. }
  destruct (split_response P response) as [[thought code]|e];
    [|exists []; cbn; rewrite app_nil_r; auto].
  destruct (str_in (py "FINAL ANSWER:") thought) eqn:Hfinal.
  { eexists [_]. cbn. auto. }
  destruct code as [code|]; [|eexists [_]; cbn; auto].
  match goal with |- context [_act code ?w3] =>
    destruct (_act_frame code w3) as (_ & _ & Hh & _);
    destruct (_act code w3) as [[obs|e] w4] end; cbn in Hh |- *; rewrite Hh.
  - eexists [_; _; _]. rewrite <- !app_assoc. cbn. auto.
  - eexists [_; _]. rewrite <- !app_assoc. cbn. auto.
Qed.

(** What one round leaves as it was. *)
Lemma run_round_frame (task prompt : str) (w : World P L) :
  sys_stdout (snd (run_round task prompt w)) = sys_stdout w
  /\ max_steps (snd (run_round task prompt w)) = max_steps w.
Proof.
  rewrite run_round_eq. cbv zeta.
  destruct (get_completion L (llm_client w) _) as [[e|response] c]; [done|].
  destruct (split_response P response) as [[thought code]|e]; [|done].
  destruct (str_in (py "FINAL ANSWER:") thought); [done|].
  destruct code as [code|]; [|done].
  match goal with |- context [_act code ?w3] =>
    destruct (_act_frame code w3) as (_ & Hm & _ & Hs);
    destruct (_act code w3) as [[obs|e] w4] end; cbn in Hm, Hs |- *; done.
Qed.

(** The calls of one round: the model first, then at most one [exec]. *)
Lemma run_round_calls (task prompt : str) (w : World P L) :
  exists evs,
    trace (snd (run_round task prompt w))
    = trace w
      ++ EvCompletion (prompt ++ NL ++ NL ++ str_join NL (map block (history w)))
         :: evs
    /\ model_calls evs = 0
    /\ exec_calls evs <= 1
    /\ forallb (asks_under prompt) evs = true.
Proof.
  rewrite run_round_eq. cbv zeta.
  assert (exec_calls (@nil (event P)) <= 1) as Hnil by (change (0 <= 1); lia).
  destruct (get_completion L (llm_client w) _) as [[e|response] c];
    [by exists []|].
  destruct (split_response P response) as [[thought code]|e]; [|by exists []].
  destruct (str_in (py "FINAL ANSWER:") thought); [by exists []|].
  destruct code as [code|]; [|by exists []].
  match goal with |- context [_act code ?w3] =>
    destruct (_act_calls code w3 prompt) as (evs & Ht & Hm & He & Ha);
    destruct (_act code w3) as [[obs|e] w4] end;
    cbn in Ht |- *; exists evs; rewrite Ht, <- app_assoc; done.
Qed.

(** The order of the calls of one round: the model call, then at most one
    [exec], so that the round can be followed by further rounds. *)
Lemma run_round_order (task prompt : str) (w : World P L) :
  exists evs,
    trace (snd (run_round task prompt w)) = trace w ++ evs
    /\ forall rest,
         one_exec_per_call false rest = true ->
         one_exec_per_call false (evs ++ rest) = true.
Proof.
  rewrite run_round_eq. cbv zeta.
  destruct (get_completion L (llm_client w) _) as [[e|response] c].
  { eexists [_]. split; [done|]. intros rest. apply one_exec_per_call_pending. }
  destruct (split_response P response) as [[thought code]|e];
    [|eexists [_]; split; [done|]; intros rest; apply one_exec_per_call_pending].
  destruct (str_in (py "FINAL ANSWER:") thought);
    [eexists [_]; split; [done|]; intros rest; apply one_exec_per_call_pending|].
  destruct code as [code|];
    [|eexists [_]; split; [done|]; intros rest; apply one_exec_per_call_pending].
  match goal with |- context [_act code ?w3] =>
    pose proof (_act_trace code w3) as Ht;
    destruct (_act code w3) as [[obs|e] w4] end;
    cbn in Ht |- *; rewrite Ht, <- app_assoc; eexists; (split; [reflexivity|]);
    intros rest Hrest; destruct (ast_parse P code); cbn;
    by auto using one_exec_per_call_pending.
Qed.

Lemma run_loop_order (n : nat) (task prompt : str) (w : World P L) :
  exists evs,
    trace (snd (run_loop n task prompt w)) = trace w ++ evs
    /\ one_exec_per_call false evs = true.
Proof.
  revert w. induction n as [|n IH]; intros w; cbn [run_loop].
  - exists []. by rewrite app_nil_r.
  - unfold bind. destruct (run_round_order task prompt w) as (evs1 & Ht1 & Horder).
    destruct (run_round task prompt w) as [[[answer|]|e] w1]; cbn [fst snd] in *.
    + exists evs1. split; [done|]. rewrite <- (app_nil_r evs1). by apply Horder.
    + destruct (IH w1) as (evs2 & Ht2 & Horder2).
      exists (evs1 ++ evs2). split; [by rewrite Ht2, Ht1, <- app_assoc|].
      by apply Horder.
    + exists evs1. split; [done|]. rewrite <- (app_nil_r evs1). by apply Horder.
Qed.

Lemma run_loop_steps (n : nat) (task prompt : str) (w : World P L) :
  exists new,
    history (snd (run_loop n task prompt w)) = history w ++ new
    /\ length new <= 3 * n
    /\ round_steps (map type new) = true
    /\ forall answer,
         fst (run_loop n task prompt w) = Return answer ->
         answer = py "Maximum steps reached without finding solution"
         \/ str_in (py "FINAL ANSWER:") answer = true.
Proof.
  revert w. induction n as [|n IH]; intros w; cbn [run_loop].
  - exists []. cbn. rewrite app_nil_r. repeat split; [lia|].
    intros answer [= <-]. by left.
  - unfold bind.
    destruct (run_round_steps task prompt w) as (new1 & Hh1 & Hkind).
    destruct (run_round task prompt w) as [[[answer|]|e] w1]; cbn [fst snd] in *.
    + exists new1. destruct Hkind as [Hk Hfinal]. split; [done|].
      rewrite <- (length_map type), Hk. split; [cbn; lia|]. split; [done|].
      intros ? [= <-]. by right.
    + destruct (IH w1) as (new2 & Hh2 & Hlen & Hshape & Hanswer).
      exists (new1 ++ new2). split; [by rewrite Hh2, Hh1, <- app_assoc|].
      rewrite length_app, map_app, <- (length_map type new1).
      destruct Hkind as [-> | ->]; cbn [length app]; (split; [lia|]);
        (split; [|done]); [by apply round_steps_thought | done].
    + exists new1. split; [done|]. rewrite <- (length_map type).
      destruct Hkind as [-> | Hk]; [|rewrite Hk]; cbn; (split; [lia|]); done.
Qed.

Lemma run_loop_frame (n : nat) (task prompt : str) (w : World P L) :
  sys_stdout (snd (run_loop n task prompt w)) = sys_stdout w
  /\ max_steps (snd (run_loop n task prompt w)) = max_steps w.
Proof.
  revert w. induction n as [|n IH]; intros w; cbn [run_loop]; [done|].
  unfold bind. destruct (run_round_frame task prompt w) as (Hs & Hm).
  destruct (run_round task prompt w) as [[[answer|]|e] w1]; cbn [fst snd] in *;
    [done| |done].
  destruct (IH w1) as (Hs' & Hm'). by rewrite Hs', Hm'.
Qed.

Lemma run_loop_calls (n : nat) (task prompt : str) (w : World P L) :
  exists evs,
    trace (snd (run_loop n task prompt w)) = trace w ++ evs
    /\ exec_calls evs <= model_calls evs
    /\ forallb (asks_under prompt) evs = true
    /\ (n <> 0 ->
        head evs
        = Some (EvCompletion
                  (prompt ++ NL ++ NL ++ str_join NL (map block (history w))))).
Proof.
  revert w. induction n as [|n IH]; intros w; cbn [run_loop].
  - exists []. cbn. rewrite app_nil_r. repeat split; [|done].
    change (0 <= 0). lia.
  - unfold bind.
    destruct (run_round_calls task prompt w) as (evs1 & Ht1 & Hm1 & He1 & Ha1).
    assert (asks_under prompt
              (@EvCompletion P (prompt ++ NL ++ NL ++ str_join NL (map block (history w))))
            = true) as Hask.
    { cbn [asks_under]. apply str_startswith_spec. eexists.
      by rewrite <- !app_assoc. }
    destruct (run_round task prompt w) as [[[answer|]|e] w1]; cbn [fst snd] in *.
    + eexists. split; [exact Ht1|]. rewrite model_calls_completion.
      change (exec_calls (?e :: evs1)) with (exec_calls evs1).
      cbn [forallb]. rewrite Hask, Ha1. split; [lia|]. split; done.
    + destruct (IH w1) as (evs2 & Ht2 & He2 & Ha2 & _).
      eexists ((_ :: evs1) ++ evs2).
      split; [rewrite Ht2, Ht1, <- app_assoc; reflexivity|].
      rewrite model_calls_app, exec_calls_app, forallb_app, model_calls_completion.
      change (exec_calls (?e :: evs1)) with (exec_calls evs1).
      cbn [forallb]. rewrite Hask, Ha1, Ha2. split; [lia|]. split; done.
    + eexists. split; [exact Ht1|]. rewrite model_calls_completion.
      change (exec_calls (?e :: evs1)) with (exec_calls evs1).
      cbn [forallb]. rewrite Hask, Ha1. split; [lia|]. split; done.
Qed.

End LoopFacts.

Section RunFacts.
Context {P : Python} {L : LLMClient (exn P)}.

(** X7. Whenever [run] returns, its result is the budget message or a text
    that contains the marker FINAL ANSWER:. *)
Theorem run_answer_kinds (task : str) (w : World P L) (answer : str) :
  fst (run task w) = Return answer ->
  answer = py "Maximum steps reached without finding solution"
  \/ str_in (py "FINAL ANSWER:") answer = true.
Proof.
  rewrite run_eq.
  destruct (run_loop_steps (Z.to_nat (max_steps w)) task (run_prompt task) w)
    as (new & _ & _ & _ & Hanswer).
  apply Hanswer.
Qed.

(** X8. With a step budget of zero or less, [run] returns the budget message
    at once: no model call is made and nothing changes. *)
Theorem run_without_budget (task : str) (w : World P L) :
  (max_steps w <= 0)%Z ->
  run task w = (Return (py "Maximum steps reached without finding solution"), w).
Proof.
  intros Hmax. rewrite run_eq.
  by replace (Z.to_nat (max_steps w)) with 0 by lia.
Qed.

(** X9. An exception of the model call is not caught: in whatever round it
    happens, the loop ends by that exception, and the round has appended no
    step and run no code. *)
Theorem run_propagates_model_error (n : nat) (task prompt : str) (w : World P L)
    (e : exn P) (c : client L) :
  let context := prompt ++ NL ++ NL ++ str_join NL (map block (history w)) in
  get_completion L (llm_client w) context = (inl e, c) ->
  run_loop (S n) task prompt w
  = (Raise e, log (EvCompletion context) (with_llm_client c w)).
Proof.
  intros context Hllm. cbn [run_loop]. unfold bind.
  rewrite run_round_eq. cbv zeta. fold context. by rewrite Hllm.
Qed.

(** X10. [run] only appends to the history: the steps that were there stay, in
    place and unchanged, and at most three steps per round of the budget are
    added, however the run ends. *)
Theorem run_history_grows (task : str) (w : World P L) :
  exists new,
    history (snd (run task w)) = history w ++ new
    /\ length new <= 3 * Z.to_nat (max_steps w).
Proof.
  rewrite run_eq.
  destruct (run_loop_steps (Z.to_nat (max_steps w)) task (run_prompt task) w)
    as (new & Hh & Hlen & _).
  by exists new.
Qed.

(** X11. The steps a run appends come round by round: THOUGHT alone, or
    THOUGHT, ACTION, OBSERVATION; only the last round may instead leave
    FINAL_ANSWER alone, or THOUGHT, ACTION when an exception of the code got
    through [_act], or nothing when the model call failed. So an OBSERVATION
    always follows the ACTION it answers, and nothing follows a
    FINAL_ANSWER. *)
Theorem run_steps_follow_rounds (task : str) (w : World P L) :
  exists new,
    history (snd (run task w)) = history w ++ new
    /\ round_steps (map type new) = true.
Proof.
  rewrite run_eq.
  destruct (run_loop_steps (Z.to_nat (max_steps w)) task (run_prompt task) w)
    as (new & Hh & _ & Hshape & _).
  by exists new.
Qed.

(** X12. [run] does not start from an empty history: with a positive budget,
    its first model call gets the prompt, a blank line and the rendering of
    every step the agent already holds (those of earlier runs included). *)
Theorem run_first_context (task : str) (w : World P L) :
  (0 < max_steps w)%Z ->
  head (events_of (run task) w)
  = Some (EvCompletion
            (run_prompt task ++ NL ++ NL ++ str_join NL (map block (history w)))).
Proof.
  intros Hmax. unfold events_of. rewrite run_eq.
  destruct (run_loop_calls (Z.to_nat (max_steps w)) task (run_prompt task) w)
    as (evs & Ht & _ & _ & Hhead).
  rewrite (events_between_app _ _ _ Ht). apply Hhead. lia.
Qed.

(** X13. Every model call of a run gets a context that starts with the prompt
    built from the task, followed by a blank line. *)
Theorem run_contexts_start_with_prompt (task : str) (w : World P L) :
  forallb (asks_under (run_prompt task)) (events_of (run task) w) = true.
Proof.
  unfold events_of. rewrite run_eq.
  destruct (run_loop_calls (Z.to_nat (max_steps w)) task (run_prompt task) w)
    as (evs & Ht & _ & Hask & _).
  by rewrite (events_between_app _ _ _ Ht).
Qed.

(** X14. A run executes at most one code fragment per model call, and only
    after that call: along the events of a run, every [exec] comes after a
    model call that no earlier [exec] has followed. So at every point of the
    run (after any number [k] of its events) the fragments executed so far
    are no more than the model calls made so far. *)
Theorem run_execs_follow_model_calls (task : str) (w : World P L) :
  one_exec_per_call false (events_of (run task) w) = true
  /\ forall k : nat,
       exec_calls (take k (events_of (run task) w))
       <= model_calls (take k (events_of (run task) w)).
Proof.
  unfold events_of. rewrite run_eq.
  destruct (run_loop_order (Z.to_nat (max_steps w)) task (run_prompt task) w)
    as (evs & Ht & Horder).
  rewrite (events_between_app _ _ _ Ht). split; [done|].
  intros k. pose proof (one_exec_per_call_prefix false evs k Horder) as Hk.
  cbv iota in Hk. lia.
Qed.

(** X15. However a run ends, every redirection of [sys.stdout] made by the
    agent has been undone, whatever the executed code bound it to in between:
    [sys.stdout] is bound as it was before the run; and the step budget is
    the same. *)
Theorem run_leaves_stdout (task : str) (w : World P L) :
  sys_stdout (snd (run task w)) = sys_stdout w
  /\ max_steps (snd (run task w)) = max_steps w.
Proof. rewrite run_eq. apply run_loop_frame. Qed.

End RunFacts.

(** A run that ends by a final answer. *)
Lemma run_answer_kinds_witness :
  py "FINAL ANSWER: 42" = py "Maximum steps reached without finding solution"
  \/ str_in (py "FINAL ANSWER:") (py "FINAL ANSWER: 42") = true.
Proof.
  exact (run_answer_kinds (py "add") (MiniPython.agent [py "FINAL ANSWER: 42"] 3)
           (py "FINAL ANSWER: 42") eq_refl).
Defined.

(** A negative budget: the waiting completion is not even asked for. *)
Lemma run_without_budget_witness :
  run (py "add") (MiniPython.agent [py "FINAL ANSWER: 42"] (-2))
  = (Return (py "Maximum steps reached without finding solution"),
     MiniPython.agent [py "FINAL ANSWER: 42"] (-2)).
Proof.
  apply (run_without_budget (py "add")
           (MiniPython.agent [py "FINAL ANSWER: 42"] (-2))).
  cbn. lia.
Defined.

(** A client whose script is used up raises in the first round. *)
Lemma run_propagates_model_error_witness :
  run (py "add") (MiniPython.agent [] 3)
  = (Raise {| MiniPython.exc_type := MiniPython.RuntimeError;
              MiniPython.exc_message := py "no completion left" |},
     log (EvCompletion (run_prompt (py "add") ++ NL ++ NL)) (MiniPython.agent [] 3)).
Proof.
  exact (run_propagates_model_error 2 (py "add") (run_prompt (py "add"))
           (MiniPython.agent [] 3) _ _ eq_refl).
Defined.

(** A second run on an agent that already holds the step of a first one. *)
Lemma run_first_context_witness :
  head (events_of (run (py "add"))
          (with_history [{| type := FINAL_ANSWER; content := py "FINAL ANSWER: 1" |}]
             (MiniPython.agent [py "FINAL ANSWER: 2"] 3)))
  = Some (EvCompletion
            (run_prompt (py "add") ++ NL ++ NL
             ++ py "FINAL_ANSWER:" ++ NL ++ py "FINAL ANSWER: 1" ++ NL)).
Proof.
  apply (run_first_context (py "add")
           (with_history [{| type := FINAL_ANSWER; content := py "FINAL ANSWER: 1" |}]
              (MiniPython.agent [py "FINAL ANSWER: 2"] 3))).
  cbn. lia.
Defined.

Section MoreFacts.
Context {P : Python} {L : LLMClient (exn P)}.


(** The step a round that returns leaves last. *)
Lemma run_round_final (task prompt : str) (w : World P L) (answer : str) :
  fst (run_round task prompt w) = Return (Some answer) ->
  history (snd (run_round task prompt w))
  = history w ++ [{| type := FINAL_ANSWER; content := answer |}].
Proof.
  rewrite run_round_eq. cbv zeta.
  destruct (get_completion L (llm_client w) _) as [[e|response] c]; [done|].
  destruct (split_response P response) as [[thought code]|e]; [|done].
  destruct (str_in (py "FINAL ANSWER:") thought); [by intros [= <-]|].
  destruct code as [code|]; [|done].
  match goal with |- context [_act code ?w3] =>
    destruct (_act code w3) as [[obs|e] w4] end; done.
Qed.

Lemma run_loop_final (n : nat) (task prompt : str) (w : World P L) (answer : str) :
  fst (run_loop n task prompt w) = Return answer ->
  answer <> py "Maximum steps reached without finding solution" ->
  last (history (snd (run_loop n task prompt w)))
  = Some {| type := FINAL_ANSWER; content := answer |}.
Proof.
  revert w. induction n as [|n IH]; intros w; cbn [run_loop].
  - intros [= <-] H. done.
  - unfold bind. pose proof (run_round_final task prompt w) as Hfinal.
    destruct (run_round task prompt w) as [[[a|]|e] w1]; cbn [fst snd] in *.
    + intros [= <-] _. unfold ret. cbn [snd].
      rewrite (Hfinal a eq_refl). apply last_snoc.
    + apply IH.
    + done.
Qed.

(** X17. When [run] returns a final answer (anything but the budget message),
    that answer is recorded: the last step of the history is then the
    FINAL_ANSWER step holding exactly the returned text. *)
Theorem run_records_final_answer (task : str) (w : World P L) (answer : str) :
  fst (run task w) = Return answer ->
  answer <> py "Maximum steps reached without finding solution" ->
  last (history (snd (run task w)))
  = Some {| type := FINAL_ANSWER; content := answer |}.
Proof. rewrite run_eq. apply run_loop_final. Qed.

End MoreFacts.


(** A thought, a round of code, then the final answer. *)
Lemma run_records_final_answer_witness :
  last (history (snd (run (py "add")
                        (MiniPython.agent
                           [py "sum" ++ NL ++ py "ACTION:" ++ NL ++ py "x = 1";
                            py "FINAL ANSWER: 42"] 3))))
  = Some {| type := FINAL_ANSWER; content := py "FINAL ANSWER: 42" |}.
Proof.
  apply (run_records_final_answer (py "add")
           (MiniPython.agent
              [py "sum" ++ NL ++ py "ACTION:" ++ NL ++ py "x = 1";
               py "FINAL ANSWER: 42"] 3)
           (py "FINAL ANSWER: 42")); [reflexivity | discriminate].
Defined.
